(** * groot/rhist: the TFormula codec, its containers and the key lookup

    A shallow embedding of [groot/rhist/formula.go] (the [Formula] type, its
    [MarshalROOT] / [UnmarshalROOT] methods, the two container codecs and the
    [init] registration), of the [rbytes] buffers it drives, and of the
    directory lookup exercised by [TestFileDirectory].  The packages
    [rbytes], [rbase], [rtypes] and [rvers] and the lookup itself are not
    among the sources; they follow the specification, and the versions of
    [rvers] are parameters.

    Conventions.
    - A Go [intN] is a [Z]; conversions ([int32(len(m))], the result of a
      read) are written out with [wrap].
    - A Go [float64] is carried as its IEEE-754 bit pattern, a [Z] below
      [2^64]: the codec only moves the 64 bits.
    - A Go [string] is a [String.string], one [ascii] per byte.
    - A Go [map[string]int32] is a [gmap string Z] and a slice is a [list];
      the nil map and the nil slice are the empty map and the empty list.
    - A [root.Object] interface value is an [option]: [None] is [nil]. *)

From Stdlib Require Import ZArith List String Ascii Lia Bool.
From Stdlib Require Import Strings.Byte.
From coqutil Require Import Byte Word.LittleEndianList.
From stdpp Require Import base option list gmap strings fin_maps.
Import ListNotations.

Local Open Scope Z_scope.

(** ** Fixed-width integers on the wire *)

Module Wire.

(** [wrap bits z]: the value of the Go conversion of [z] to a signed
    integer type of [bits] bits (two's complement wrap-around). *)
Definition wrap (bits z : Z) : Z :=
  (z + 2 ^ (bits - 1)) mod 2 ^ bits - 2 ^ (bits - 1).

Definition int16 (z : Z) : Z := wrap 16 z.
Definition int32 (z : Z) : Z := wrap 32 z.

Definition is_int16 (z : Z) : Prop := - 2 ^ 15 <= z < 2 ^ 15.
Definition is_int32 (z : Z) : Prop := - 2 ^ 31 <= z < 2 ^ 31.
Definition is_u64 (z : Z) : Prop := 0 <= z < 2 ^ 64.

Definition is_int32b (z : Z) : bool := (- 2 ^ 31 <=? z) && (z <? 2 ^ 31).
Definition is_u64b (z : Z) : bool := (0 <=? z) && (z <? 2 ^ 64).

(** Big-endian split of the low [n] bytes of [z], and its inverse. *)
Definition be_split (n : nat) (z : Z) : list byte := rev (le_split n z).
Definition be_combine (bs : list byte) : Z := le_combine (rev bs).

Definition encI16 (v : Z) : list byte := be_split 2 v.
Definition encI32 (v : Z) : list byte := be_split 4 v.
Definition encU64 (v : Z) : list byte := be_split 8 v.
Definition encBool (b : bool) : list byte :=
  [if b then byte.of_Z 1 else byte.of_Z 0].
Definition encString (s : string) : list byte :=
  encI32 (Z.of_nat (String.length s)) ++ list_byte_of_string s.

Definition decI16 (bs : list byte) : Z := int16 (be_combine bs).
Definition decI32 (bs : list byte) : Z := int32 (be_combine bs).
Definition decU64 (bs : list byte) : Z := be_combine bs.
Definition decBool (bs : list byte) : bool :=
  negb (be_combine bs =? 0).

End Wire.
Import Wire.

(** ** rbytes: the write and read buffers

    The package [groot/rbytes] is not part of the sources at hand; the
    buffers are modelled from the specification of the primitive codec and
    of the framing layer. *)

Module rbytes.

(** Modelled from the spec: the error values that travel through the codec.
    The first three are kinds of the error-handling design;
    [ErrInvalidVersion], [ErrUnsupportedVersion] and [ErrObsoleteVersion]
    carry the arguments of the three [fmt.Errorf] calls of formula.go;
    [ErrMakeSlice] is the run-time panic of [make] on a negative length. *)
Inductive Error : Type :=
| ErrBufferExhausted
| ErrFrameLengthMismatch (class : string) (want got : Z)
| ErrUnknownClass (class : string)
| ErrInvalidVersion (typename : string) (got want : Z)
    (* "rbytes: invalid %s version: got=%d, want=%d" *)
| ErrUnsupportedVersion (class : string) (vers max : Z)
    (* "rhist: invalid TFormula version=%d > %d" *)
| ErrObsoleteVersion (class : string) (vers floor : Z)
    (* "rhist: too old TFormula version=%d < 12" *)
| ErrMakeSlice (n : Z)
    (* runtime error: makeslice: len out of range *)
| ErrOther (msg : string).

(** *** WBuffer *)

(** Modelled from the spec: a write buffer, the bytes written so far (the
    cursor is at their end) and the sticky error.  The buffer grows as
    needed, so that a write cannot exhaust it. *)
Record WBuffer : Type := mkW {
  w_p : list byte;          (* the bytes written so far *)
  w_err : option Error      (* the sticky error *)
}.

Definition WPos (w : WBuffer) : nat := length (w_p w).
Definition WErr (w : WBuffer) : option Error := w_err w.

(** Modelled from the spec: a write appends at the cursor and advances it by
    the bytes produced; with the sticky error set it does nothing. *)
Definition wput (bs : list byte) (w : WBuffer) : WBuffer :=
  match w_err w with
  | Some _ => w
  | None => mkW (w_p w ++ bs) None
  end.

(** Modelled from the spec: the fixed-width integers big-endian, a bool as
    one byte, a string as its length on four bytes followed by its bytes. *)
Definition WriteI16 (v : Z) (w : WBuffer) : WBuffer := wput (encI16 v) w.
Definition WriteI32 (v : Z) (w : WBuffer) : WBuffer := wput (encI32 v) w.
Definition WriteBool (b : bool) (w : WBuffer) : WBuffer := wput (encBool b) w.
Definition WriteString (s : string) (w : WBuffer) : WBuffer :=
  wput (encString s) w.

(** Modelled from the spec: a flat sequence of 64-bit floats, as its count
    followed by the elements. *)
Definition WriteStdVectorF64 (v : list Z) (w : WBuffer) : WBuffer :=
  wput (encI32 (int32 (Z.of_nat (length v))) ++ flat_map encU64 v) w.

(** Modelled from the spec: [beginRecord(version)] writes the version tag,
    reserves the length field and returns the position of the
    reservation. *)
Definition WriteVersion (vers : Z) (w : WBuffer) : nat * WBuffer :=
  match w_err w with
  | Some _ => (0%nat, w)
  | None =>
      let w1 := WriteI16 vers w in
      (WPos w1, wput (encI32 0) w1)
  end.

(** Modelled from the spec: [endRecord(reservedPosition, className)]
    computes [length = currentPosition - reservedPosition], overwrites the
    reserved field with it and returns it. *)
Definition SetByteCount (pos : nat) (class : string) (w : WBuffer)
  : (Z * option Error) * WBuffer :=
  match w_err w with
  | Some e => ((0, Some e), w)
  | None =>
      let n := Z.of_nat (WPos w) - Z.of_nat pos in
      ((n, None),
       mkW (take pos (w_p w) ++ encI32 (int32 n) ++ drop (pos + 4) (w_p w))
           None)
  end.

(** *** RBuffer *)

(** Modelled from the spec: a read buffer, the bytes to decode, the cursor
    and the sticky error. *)
Record RBuffer : Type := mkR {
  r_p : list byte;          (* the bytes to decode *)
  r_c : nat;                (* the cursor *)
  r_err : option Error      (* the sticky error *)
}.

Definition RPos (r : RBuffer) : nat := r_c r.
Definition RErr (r : RBuffer) : option Error := r_err r.
Definition SetErr (e : Error) (r : RBuffer) : RBuffer :=
  mkR (r_p r) (r_c r) (Some e).

(** The outcome of a piece of decoding code: it returns a value and the
    buffer, or it panics (the buffer is the one at the [panic]), or the
    model's recursion budget for nested objects is spent. *)
Inductive res (A : Type) : Type :=
| Ok (a : A) (r : RBuffer)
| Panic (e : Error) (r : RBuffer)
| NoFuel.
Arguments Ok {A} a r.
Arguments Panic {A} e r.
Arguments NoFuel {A}.

Definition R (A : Type) : Type := RBuffer -> res A.

Definition ret {A} (a : A) : R A := fun r => Ok a r.
Definition bind {A B} (m : R A) (k : A -> R B) : R B :=
  fun r =>
    match m r with
    | Ok a r' => k a r'
    | Panic e r' => Panic e r'
    | NoFuel => NoFuel
    end.
Definition panic {A} (e : Error) : R A := fun r => Panic e r.

(** Modelled from the spec: a read of [n] bytes at the cursor.  With the
    sticky error set it does nothing and yields the zero value [dflt]; with
    fewer than [n] bytes left it sets [ErrBufferExhausted]; otherwise it
    decodes the bytes and advances the cursor by [n]. *)
Definition rget {A} (n : nat) (dec : list byte -> A) (dflt : A) : R A :=
  fun r =>
    match r_err r with
    | Some _ => Ok dflt r
    | None =>
        if (r_c r + n <=? length (r_p r))%nat
        then Ok (dec (take n (drop (r_c r) (r_p r))))
                (mkR (r_p r) (r_c r + n) None)
        else Ok dflt (SetErr ErrBufferExhausted r)
    end.

(** Modelled from the spec: the reads of the fixed-width integers and of
    the bool, the inverses of the writes. *)
Definition ReadI16 : R Z := rget 2 decI16 0.
Definition ReadI32 : R Z := rget 4 decI32 0.
Definition ReadU64 : R Z := rget 8 decU64 0.
Definition ReadBool : R bool := rget 1 decBool false.

(** Modelled from the spec: a length-prefixed string.  A negative length
    cannot be honoured and exhausts the buffer. *)
Definition ReadString : R string :=
  bind ReadI32 (fun n =>
    if n <? 0 then fun r => Ok EmptyString (SetErr ErrBufferExhausted r)
    else rget (Z.to_nat n) string_of_list_byte EmptyString).

(** [n] reads in a row, the values in reading order. *)
Fixpoint readN {A} (n : nat) (rd : R A) : R (list A) :=
  match n with
  | O => ret []
  | S n' => bind rd (fun a => bind (readN n' rd) (fun l => ret (a :: l)))
  end.

(** Modelled from the spec: the flat sequence of floats read back into
    [*sli]; with the sticky error set the slice is left as it is. *)
Definition ReadStdVectorF64 (sli : list Z) : R (list Z) :=
  fun r =>
    match r_err r with
    | Some _ => Ok sli r
    | None =>
        bind ReadI32 (fun n =>
          if n <? 0 then fun r => Ok sli (SetErr ErrBufferExhausted r)
          else readN (Z.to_nat n) ReadU64) r
    end.

(** Modelled from the spec: [beginRecord(className)] reads the version tag
    and the recorded length and returns them with the position the length
    is counted from, which is the position [WriteVersion] returned on the
    write side. *)
Definition ReadVersion (class : string) : R (Z * nat * Z) :=
  fun r =>
    match r_err r with
    | Some _ => Ok (0, 0%nat, 0) r
    | None =>
        bind ReadI16 (fun vers =>
          fun r1 =>
            bind ReadI32 (fun bcnt => ret (vers, r_c r1, bcnt)) r1) r
    end.

(** Modelled from the spec: [endRecord(position, recordedLength, className)]
    checks [currentPosition - position == recordedLength]; on mismatch it
    raises the corruption error naming the class and both byte counts, and
    leaves the cursor where it is.  [beg], the position before the frame,
    only serves the diagnostics of the Go code. *)
Definition CheckByteCount (pos : nat) (bcnt : Z) (beg : nat) (class : string)
  : R unit :=
  fun r =>
    match r_err r with
    | Some _ => Ok tt r
    | None =>
        let got := Z.of_nat (r_c r) - Z.of_nat pos in
        if got =? bcnt then Ok tt r
        else Ok tt (SetErr (ErrFrameLengthMismatch class bcnt got) r)
    end.

(** *** Embedded objects *)

(** Modelled from the spec: an embedded object (the Named base) is written
    by its own encoder. *)
Definition WriteObject
    (marshal : WBuffer -> (Z * option Error) * WBuffer) (w : WBuffer)
  : WBuffer :=
  match w_err w with
  | Some _ => w
  | None => snd (marshal w)
  end.

(** Modelled from the spec: an embedded object is read by its own decoder,
    into the object itself; with the sticky error set it is left as it
    is. *)
Definition ReadObject {A} (obj : A) (unmarshal : A -> R A) : R A :=
  fun r =>
    match r_err r with
    | Some _ => Ok obj r
    | None => unmarshal obj r
    end.

(** *** Polymorphic object references

    The reference is parameterised by the object type, so that it can be
    instantiated once [Formula] and its methods exist. *)
Section ObjectAny.
Context {Obj : Type}.

(** Modelled from the spec: a reference is written as its class-name tag
    followed by the object's own record; the absent reference is the
    empty tag. *)
Definition WriteObjectAny (class : Obj -> string)
    (marshal : Obj -> WBuffer -> (Z * option Error) * WBuffer)
    (o : option Obj) (w : WBuffer) : WBuffer :=
  match w_err w with
  | Some _ => w
  | None =>
      match o with
      | None => WriteString EmptyString w
      | Some x => snd (marshal x (WriteString (class x) w))
      end
  end.

(** Modelled from the spec: decoding first reads the class-name tag, asks
    the registry for a blank instance of that class and dispatches to
    that instance's own decoder; the absent reference decodes to [nil]
    without a look at the registry, and a tag without an entry is the
    unknown-class error. *)
Definition ReadObjectAny (factory : gmap string (unit -> Obj))
    (unmarshal : Obj -> R Obj) : R (option Obj) :=
  fun r =>
    match r_err r with
    | Some _ => Ok None r
    | None =>
        bind ReadString (fun tag =>
          fun r1 =>
            match r_err r1 with
            | Some _ => Ok None r1
            | None =>
                if String.eqb tag EmptyString then Ok None r1
                else
                  match factory !! tag with
                  | None => Ok None (SetErr (ErrUnknownClass tag) r1)
                  | Some new => bind (unmarshal (new tt))
                                     (fun x => ret (Some x)) r1
                  end
            end) r
    end.
End ObjectAny.

End rbytes.
Import rbytes.

(** ** rvers: the format versions

    The constants of [groot/rvers] are not part of the sources at hand; they
    are taken as parameters. *)
Module rvers.
Class Versions : Type := {
  Named : Z;          (* rvers.Named *)
  Formula : Z;        (* rvers.Formula *)
  StreamerInfo : Z    (* rvers.StreamerInfo *)
}.
End rvers.

(** ** rbase: the Named base *)
Module rbase.

(** Modelled from the spec: Named is a name and a title. *)
Record Named : Type := mkNamed { name : string; title : string }.

Definition NewNamed (name title : string) : Named := mkNamed name title.
Definition Name (n : Named) : string := name n.
Definition Title (n : Named) : string := title n.

Section Codec.
Context `{V : rvers.Versions}.

(** Modelled from the spec: the Named base is a record of its own, a
    frame around the name and the title. *)
Definition MarshalROOT (n : Named) (w : WBuffer)
  : (Z * option Error) * WBuffer :=
  match w_err w with
  | Some e => ((0, Some e), w)
  | None =>
      let '(pos, w) := WriteVersion rvers.Named w in
      let w := WriteString (name n) w in
      let w := WriteString (title n) w in
      SetByteCount pos "TNamed" w
  end.

(** Modelled from the spec: the decoder of the Named base, gated on the
    greatest supported version like every object decoder. *)
Definition UnmarshalROOT (n : Named) : R Named :=
  fun r =>
    match r_err r with
    | Some _ => Ok n r
    | None =>
        let beg := r_c r in
        bind (ReadVersion "TNamed") (fun '(vers, pos, bcnt) =>
          if vers >? rvers.Named
          then panic (ErrUnsupportedVersion "TNamed" vers rvers.Named)
          else
            bind ReadString (fun nm =>
            bind ReadString (fun ti =>
            bind (CheckByteCount pos bcnt beg "TNamed") (fun _ =>
            ret (mkNamed nm ti))))) r
    end.
End Codec.

End rbase.

(** ** rtypes: the factory of constructors *)
Module rtypes.
Section Factory.
Context {Obj : Type}.

(** Modelled from the spec: [register(className, constructor)] installs
    the constructor; registering a name again overwrites the entry. *)
Definition Add (n : string) (fct : unit -> Obj)
    (f : gmap string (unit -> Obj)) : gmap string (unit -> Obj) :=
  <[n := fct]> f.

(** Modelled from the spec: the constructor registered under a class name,
    if there is one. *)
Definition Get (n : string) (f : gmap string (unit -> Obj))
  : option (unit -> Obj) := f !! n.
End Factory.
End rtypes.

(** ** rhist: formula.go *)
Module rhist.

(** The order of a [for k, v := range m] loop.  Go fixes none: the runtime
    picks one at every loop.  [range t m] is the order picked for the loop
    that starts when the writer stands at position [t] (two loops of one
    encoding start at different positions); that it lists the entries of
    [m], each once, is the hypothesis [RangeOk]. *)
Class MapRange : Type := range : nat -> gmap string Z -> list (string * Z).
Class RangeOk (Rg : MapRange) : Prop :=
  range_perm : forall t m, range t m ≡ₚ map_to_list m.

(** Formula describes a ROOT TFormula. *)
#[local] Unset Elimination Schemes.
Inductive Formula : Type := mkFormula {
  named : rbase.Named;
  clingParams : list Z;                 (* parameter values *)
  allParamsSet : bool;
  params : gmap string Z;               (* list of parameter names *)
  formula : string;
  ndim : Z;
  linearParts : list (option Formula);  (* vector of linear functions *)
  vectorized : bool
}.
#[local] Set Elimination Schemes.

Definition newFormula : Formula :=
  mkFormula (rbase.NewNamed EmptyString EmptyString) [] false ∅ EmptyString 0
            [] false.

Definition Class (f : Formula) : string := "TFormula".
Definition Name (f : Formula) : string := rbase.Name (named f).
Definition Title (f : Formula) : string := rbase.Title (named f).

(** [fmt.Sprintf] of [TFormula{%s}] with the expression. *)
Definition String (f : Formula) : string :=
  ("TFormula{" ++ formula f ++ "}")%string.

Notation "'let*' x ':=' m 'in' k" := (rbytes.bind m (fun x => k))
  (at level 10, x pattern, m at level 100, k at level 200, only parsing).

Section Codec.
Context `{V : rvers.Versions} `{Rg : MapRange}.

Definition RVersion (f : Formula) : Z := rvers.Formula.

Definition writeMapStringInt (m : gmap string Z) (w : WBuffer) : WBuffer :=
  match w_err w with
  | Some _ => w
  | None =>
      let typename := "map<TString,int,TFormulaParamOrder>"%string in
      let '(pos, w) := WriteVersion rvers.StreamerInfo w in
      let w := WriteI32 (int32 (Z.of_nat (size m))) w in
      let w := fold_left
                 (fun w kv => WriteI32 (snd kv) (WriteString (fst kv) w))
                 (range (WPos w) m) w in
      snd (SetByteCount pos typename w)
  end.

Definition writeStdVectorObjP
    (marshal : Formula -> WBuffer -> (Z * option Error) * WBuffer)
    (vs : list (option Formula)) (w : WBuffer) : WBuffer :=
  match w_err w with
  | Some _ => w
  | None =>
      let typename := "vector<TObject*>"%string in
      let '(pos, w) := WriteVersion rvers.StreamerInfo w in
      let w := WriteI32 (int32 (Z.of_nat (length vs))) w in
      let w := fold_left (fun w o => WriteObjectAny Class marshal o w)
                         vs w in
      snd (SetByteCount pos typename w)
  end.

(** MarshalROOT implements rbytes.Marshaler *)
Fixpoint MarshalROOT (f : Formula) (w : WBuffer) {struct f}
  : (Z * option Error) * WBuffer :=
  match w_err w with
  | Some e => ((0, Some e), w)
  | None =>
      match f with
      | mkFormula nm cp aps ps fo nd lp ve =>
          let '(pos, w) := WriteVersion (RVersion f) w in
          let w := WriteObject (rbase.MarshalROOT nm) w in
          let w := WriteStdVectorF64 cp w in
          let w := WriteBool aps w in
          let w := writeMapStringInt ps w in
          let w := WriteString fo w in
          let w := WriteI32 nd w in
          let w := writeStdVectorObjP MarshalROOT lp w in
          let w := WriteBool ve w in
          SetByteCount pos (Class f) w
      end
  end.

(** The loop of [readMapStringInt]: [n] times, read a key and a value and
    store [o[k] = v]. *)
Fixpoint readPairs (n : nat) (o : gmap string Z) : R (gmap string Z) :=
  match n with
  | O => ret o
  | S n' =>
      let* k := ReadString in
      let* v := ReadI32 in
      readPairs n' (<[k := v]> o)
  end.

Definition readMapStringInt : R (gmap string Z) :=
  fun r =>
    match r_err r with
    | Some _ => Ok ∅ r
    | None =>
        let typename := "map<TString,int,TFormulaParamOrder>"%string in
        let beg := RPos r in
        (let* (vers, pos, bcnt) := ReadVersion typename in
         if negb (vers =? rvers.StreamerInfo)
         then fun r =>
                Ok ∅ (SetErr (ErrInvalidVersion typename vers
                                                rvers.StreamerInfo) r)
         else
           let* n := ReadI32 in
           let* o := readPairs (Z.to_nat n) ∅ in
           let* _ := CheckByteCount pos bcnt beg typename in
           ret o) r
    end.

Definition readStdVectorObjP (factory : gmap string (unit -> Formula))
    (unmarshal : Formula -> R Formula) : R (list (option Formula)) :=
  fun r =>
    match r_err r with
    | Some _ => Ok [] r
    | None =>
        let typename := "vector<TObject*>"%string in
        let beg := RPos r in
        (let* (vers, pos, bcnt) := ReadVersion typename in
         if negb (vers =? rvers.StreamerInfo)
         then fun r =>
                Ok [] (SetErr (ErrInvalidVersion typename vers
                                                 rvers.StreamerInfo) r)
         else
           let* n := ReadI32 in
           if n <? 0 then panic (ErrMakeSlice n)
           else
             let* o := readN (Z.to_nat n)
                             (ReadObjectAny factory unmarshal) in
             let* _ := CheckByteCount pos bcnt beg typename in
             ret o) r
    end.

(** [UnmarshalROOT]; the error it returns is the sticky error of the
    buffer it leaves, [RErr].  [fuel] bounds the nesting of the objects
    decoded through [ReadObjectAny]. *)
Fixpoint UnmarshalROOT (factory : gmap string (unit -> Formula))
    (fuel : nat) (f : Formula) : R Formula :=
  match fuel with
  | O => fun _ => NoFuel
  | S fuel' =>
      fun r =>
        match r_err r with
        | Some _ => Ok f r
        | None =>
            let beg := RPos r in
            (let* (vers, pos, bcnt) := ReadVersion (Class f) in
             if vers >? rvers.Formula
             then panic (ErrUnsupportedVersion "TFormula" vers
                                               rvers.Formula)
             else if (vers <? 12) || (vers >? 13)
             then panic (ErrObsoleteVersion "TFormula" vers 12)
             else
               let* nm := ReadObject (named f) rbase.UnmarshalROOT in
               let* cp := ReadStdVectorF64 (clingParams f) in
               let* aps := ReadBool in
               let* ps := readMapStringInt in
               let* fo := ReadString in
               let* nd := ReadI32 in
               let* lp := readStdVectorObjP factory
                            (UnmarshalROOT factory fuel') in
               let* ve := ReadBool in
               let* _ := CheckByteCount pos bcnt beg (Class f) in
               ret (mkFormula nm cp aps ps fo nd lp ve)) r
        end
  end.

(** The reads of [readMapStringInt] between the version check and
    [CheckByteCount] (the count and the loop), as a decoder of their own. *)
Definition readEntries : R (gmap string Z) :=
  let* n := ReadI32 in
  readPairs (Z.to_nat n) ∅.

(** The reads of [readStdVectorObjP] between the version check and
    [CheckByteCount] (the count, [make] and the loop), as a decoder of
    their own. *)
Definition readObjects (factory : gmap string (unit -> Formula))
    (unmarshal : Formula -> R Formula) : R (list (option Formula)) :=
  let* n := ReadI32 in
  if n <? 0 then panic (ErrMakeSlice n)
  else readN (Z.to_nat n) (ReadObjectAny factory unmarshal).

(** The field reads of [UnmarshalROOT], between the version checks and
    [CheckByteCount], as a decoder of their own; [unmarshal] decodes the
    objects of [linearParts]. *)
Definition readFields (factory : gmap string (unit -> Formula))
    (unmarshal : Formula -> R Formula) (f : Formula) : R Formula :=
  let* nm := ReadObject (named f) rbase.UnmarshalROOT in
  let* cp := ReadStdVectorF64 (clingParams f) in
  let* aps := ReadBool in
  let* ps := readMapStringInt in
  let* fo := ReadString in
  let* nd := ReadI32 in
  let* lp := readStdVectorObjP factory unmarshal in
  let* ve := ReadBool in
  ret (mkFormula nm cp aps ps fo nd lp ve).

End Codec.

Definition init (factory : gmap string (unit -> Formula))
  : gmap string (unit -> Formula) :=
  rtypes.Add "TFormula" (fun _ => newFormula) factory.

End rhist.

(** ** rootio: keys and the lookup [Get]

    [TestFileDirectory] calls [f.Get] on a file's directory; the function
    itself is not part of the sources at hand. *)
Module rootio.

(** Modelled from the spec: a key, as the data model lists its fields. *)
Record Key : Type := mkKey {
  name : string;
  title : string;
  className : string;
  cycle : N;                (* uint32 *)
  seekPosition : Z;         (* int64 *)
  compressedSize : Z;       (* int64 *)
  uncompressedSize : Z      (* int64 *)
}.

(** Modelled from the spec: a directory is the ordered sequence of its
    keys. *)
Definition Directory : Type := list Key.

(** Modelled from the spec: the split of a query at its first [sep], the
    text before it and, when there is one, the text after it. *)
Fixpoint splitAt (sep : ascii) (s : string) : string * option string :=
  match s with
  | EmptyString => (EmptyString, None)
  | String a s' =>
      if Ascii.eqb a sep then (EmptyString, Some s')
      else let '(p, rest) := splitAt sep s' in (String a p, rest)
  end.

(** Modelled from the spec: the value of a decimal digit, and of a run of
    them. *)
Definition digit (a : ascii) : option N :=
  let n := N_of_ascii a in
  if ((48 <=? n) && (n <=? 57))%N then Some (n - 48)%N else None.

Fixpoint parseDec (s : string) (acc : N) : option N :=
  match s with
  | EmptyString => Some acc
  | String a s' =>
      match digit a with
      | Some d => parseDec s' (10 * acc + d)%N
      | None => None
      end
  end.

(** Modelled from the spec: a cycle is a non-empty run of decimal
    digits. *)
Definition parseCycle (s : string) : option N :=
  match s with
  | EmptyString => None
  | _ => parseDec s 0%N
  end.

(** Modelled from the spec: the query grammar, [name] or [name;cycle] with
    [cycle] a base-10 non-negative integer.  A query whose text after the
    [;] is no such integer is outside the grammar. *)
Definition decodeNameCycle (q : string) : option (string * option N) :=
  match splitAt ";"%char q with
  | (n, None) => Some (n, None)
  | (n, Some c) =>
      match parseCycle c with
      | Some cy => Some (n, Some cy)
      | None => None
      end
  end.

(** Modelled from the spec: the keys stored under a name, the greatest
    cycle among keys, and the first key at a cycle. *)
Definition keysNamed (n : string) (d : Directory) : list Key :=
  List.filter (fun k => String.eqb (name k) n) d.
Definition maxCycle (ks : list Key) : N :=
  fold_right N.max 0%N (List.map cycle ks).
Definition keyAt (c : N) (ks : list Key) : option Key :=
  List.find (fun k => N.eqb (cycle k) c) ks.

(** Modelled from the spec: the resolution algorithm of the directory.  An
    absent cycle asks for the highest existing one; cycle [0] is never
    found; an exact match is returned; failing that, a cycle above the
    greatest stored one falls back to the key at the greatest cycle and a
    cycle below it is not found; a name without keys is not found. *)
Definition Get (d : Directory) (namecycle : string) : option Key :=
  match decodeNameCycle namecycle with
  | None => None
  | Some (n, oc) =>
      let ks := keysNamed n d in
      match oc with
      | None => keyAt (maxCycle ks) ks
      | Some c =>
          if N.eqb c 0 then None
          else
            match keyAt c ks with
            | Some k => Some k
            | None =>
                match ks with
                | [] => None
                | _ :: _ =>
                    if (maxCycle ks <? c)%N then keyAt (maxCycle ks) ks
                    else None
                end
            end
      end
  end.

End rootio.

(** ** hplot: a drawer wrapped with options

    [vg.Length] is a [float64], of which only the zero value is used here;
    [htex.Handler] and [draw.Canvas] belong to other packages.  A [Drawer]
    is its [Draw] method, the change it makes to the canvas; a nil
    [htex.Handler] is [None]. *)
Module hplot.
Section Wrap.
Context {Length Handler Canvas : Type} (zero : Length).

Definition Drawer : Type := Canvas -> Canvas.

Record Border : Type := mkBorder {
  Left : Length;
  Right : Length;
  Bottom : Length;
  Top : Length
}.

Record wplot : Type := mkWplot {
  p : Drawer;
  border : Border;
  latex : option Handler
}.

(** An option updates the [wplot] it is given. *)
Definition DrawOption : Type := wplot -> wplot.

Definition WithBorder (b : Border) : DrawOption :=
  fun wp => mkWplot (p wp) b (latex wp).

Definition WithLatexHandler (h : option Handler) : DrawOption :=
  fun wp => mkWplot (p wp) (border wp) h.

Definition Draw (wp : wplot) (dc : Canvas) : Canvas := p wp dc.

Definition LatexHandler (wp : wplot) : option Handler := latex wp.

Definition Wrap (d : Drawer) (opts : list DrawOption) : wplot :=
  fold_left (fun wp opt => opt wp) opts
            (mkWplot d (mkBorder zero zero zero zero) None).

(** The options the package lets a caller build: [wplot] is not exported,
    so a [DrawOption] comes from [WithBorder] or [WithLatexHandler]. *)
Inductive exported : DrawOption -> Prop :=
| exported_WithBorder b : exported (WithBorder b)
| exported_WithLatexHandler h : exported (WithLatexHandler h).

End Wrap.
End hplot.

(** ** Wire sizes and representable values

    What the round trip needs of a [Formula]: every number within the range
    of its Go type, and every count and frame length within [int32], which
    holds as soon as the whole record is shorter than [2^31] bytes. *)
Module Layout.
Import rhist.
Local Open Scope nat_scope.

(** The bytes ahead of the cursor, and the buffer [n] bytes further. *)
Definition remaining (r : RBuffer) : list byte := drop (r_c r) (r_p r).
Definition advance (n : nat) (r : RBuffer) : RBuffer :=
  mkR (r_p r) (r_c r + n) None.

(** The number of bytes each value takes on the wire. *)
Definition szString (s : string) : nat := 4 + String.length s.
Definition szNamed (n : rbase.Named) : nat :=
  6 + (szString (rbase.name n) + szString (rbase.title n)).
Definition szVecF64 (l : list Z) : nat := 4 + 8 * length l.
Definition szPair (kv : string * Z) : nat := szString (fst kv) + 4.
Definition szPairs (l : list (string * Z)) : nat :=
  list_sum (List.map szPair l).
Definition szMap (m : gmap string Z) : nat :=
  6 + (4 + szPairs (map_to_list m)).

Fixpoint szFormula (f : Formula) : nat :=
  match f with
  | mkFormula nm cp aps ps fo nd lp ve =>
      6 + (szNamed nm + (szVecF64 cp + (1 + (szMap ps + (szString fo +
      (4 + ((6 + (4 + list_sum
                        (List.map (fun o => match o with
                                            | None => 4
                                            | Some g => 12 + szFormula g
                                            end) lp))) + 1)))))))
  end.

Definition szObj (o : option Formula) : nat :=
  match o with
  | None => 4
  | Some g => 12 + szFormula g
  end.
Definition szVecObj (lp : list (option Formula)) : nat :=
  6 + (4 + list_sum (List.map szObj lp)).

(** [validb f]: the bit patterns of the floats, the values of the map and
    [ndim] are within their types, the record is shorter than [2^31] bytes,
    and the same holds of every object of [linearParts]. *)
Fixpoint validb (f : Formula) : bool :=
  match f with
  | mkFormula nm cp aps ps fo nd lp ve =>
      forallb is_u64b cp
      && forallb (fun kv => is_int32b (snd kv)) (map_to_list ps)
      && is_int32b nd
      && forallb (fun o => match o with
                           | None => true
                           | Some g => validb g
                           end) lp
      && (Z.of_nat (szFormula f) <? 2 ^ 31)%Z
  end.

(** The value a key is bound to by its last occurrence in a sequence of
    pairs. *)
Fixpoint lastOcc (k : string) (l : list (string * Z)) : option Z :=
  match l with
  | [] => None
  | (k', v) :: l' =>
      match lastOcc k l' with
      | Some v' => Some v'
      | None => if String.eqb k' k then Some v else None
      end
  end.

(** The bytes of the pairs of a map, in the order given, and of the whole
    container around them. *)
Definition encPair (kv : string * Z) : list byte :=
  encString (fst kv) ++ encI32 (snd kv).
Definition encPairs (l : list (string * Z)) : list byte :=
  flat_map encPair l.
Definition encFrame (vers : Z) (payload : list byte) : list byte :=
  encI16 vers ++ encI32 (Z.of_nat (4 + length payload)) ++ payload.

(** The reader stands without error, within its bytes, before [bs]. *)
Definition at_ (r : RBuffer) (bs : list byte) : Prop :=
  r_err r = None /\ (r_c r <= length (r_p r))%nat /\ remaining r = bs.

(** [rd] decodes [bs] into [a]: run before [bs], it hands [a] to what
    follows and leaves the cursor right after [bs]. *)
Definition reads {A} (rd : R A) (bs : list byte) (a : A) : Prop :=
  forall B (k : A -> R B) r rest,
    at_ r (bs ++ rest) ->
    rbytes.bind rd k r = k a (advance (length bs) r).

(** [wr] appends [sz] bytes that [rd] decodes into [a]. *)
Definition codec {A} (wr : WBuffer -> WBuffer) (rd : R A) (a : A) (sz : nat)
  : Prop :=
  forall w, w_err w = None ->
    exists bs, wr w = mkW (w_p w ++ bs) None /\ length bs = sz /\
               reads rd bs a.

(** A pair the wire can carry: a key short enough for its length prefix
    and a value within [int32]. *)
Definition pair_ok (kv : string * Z) : Prop :=
  (Z.of_nat (szString (fst kv)) < 2 ^ 31)%Z /\ is_int32 (snd kv).

(** [wr] appends [n] bytes and leaves the error unset. *)
Definition appends (wr : WBuffer -> WBuffer) (n : nat) : Prop :=
  forall w, w_err w = None ->
    exists bs, wr w = mkW (w_p w ++ bs) None /\ length bs = n.

End Layout.

(** ** Sample values

    Concrete versions, iteration orders, objects and buffers on which the
    statements below are exercised. *)
Module Samples.
Import rhist.
Local Open Scope string_scope.

Definition V0 : rvers.Versions :=
  {| rvers.Named := 1; rvers.Formula := 13; rvers.StreamerInfo := 9 |}.

(** Two iteration orders: the entries as [map_to_list] lists them, and
    the same entries backwards. *)
Definition range_fwd : MapRange := fun _ m => map_to_list m.
Definition range_bwd : MapRange := fun _ m => rev (map_to_list m).

Definition p01 : gmap string Z := <["p1" := 1]> (<["p0" := 0]> ∅).

Definition f_lin : Formula :=
  mkFormula (rbase.NewNamed "lin" "linear part") [4607182418800017408] true
            p01 "[p0]+[p1]*x" 1 [None] false.

Definition f_pol : Formula :=
  mkFormula (rbase.NewNamed "func1" "func1")
            [4607182418800017408; 4611686018427387904] true
            p01 "[p0]+[p1]*x" 1 [Some f_lin; None] true.

(** A frame header with version 8 and length 4, and nothing after it. *)
Definition r_v8 : RBuffer := mkR (encI16 8 ++ encI32 4) 0 None.
(** A frame header with version 14, and one with version 11. *)
Definition r_v14 : RBuffer := mkR (encI16 14 ++ encI32 4) 0 None.
Definition r_v11 : RBuffer := mkR (encI16 11 ++ encI32 4) 0 None.

(** Three pairs, the key [a] twice. *)
Definition pairs_aba : list (string * Z) := [("a", 1); ("b", 2); ("a", 3)].

(** The record of [f_lin], and a reader on that record with the length
    field overwritten by 7. *)
Definition bytes_lin : list byte :=
  w_p (snd (MarshalROOT (V := V0) (Rg := range_fwd) f_lin (mkW [] None))).
Definition r_bad : RBuffer :=
  mkR (take 2 bytes_lin ++ encI32 7 ++ drop 6 bytes_lin) 0 None.

(** The container of [pairs_aba] with the recorded length 5. *)
Definition r_bad_map : RBuffer :=
  mkR (encI16 9 ++ encI32 5 ++ encI32 3 ++ Layout.encPairs pairs_aba) 0 None.

(** The container of two nil objects with the recorded length 5. *)
Definition r_bad_vec : RBuffer :=
  mkR (encI16 9 ++ encI32 5 ++ encI32 2 ++ encI32 0 ++ encI32 0) 0 None.

(** A Formula outside [validb]: its [ndim] does not fit [int32] and one of
    its values is not the bit pattern of a float. *)
Definition f_wide : Formula :=
  mkFormula (rbase.NewNamed "wide" "") [2 ^ 70] false p01 "x" (2 ^ 40)
            [None; Some f_lin] true.

(** A drawer that writes one line on a canvas of lines, and two borders
    in whole lengths. *)
Definition d_hist : hplot.Drawer (Canvas := list string) :=
  fun dc => "hist" :: dc.
Definition b_one : hplot.Border (Length := Z) := hplot.mkBorder 1 1 1 1.
Definition b_two : hplot.Border (Length := Z) := hplot.mkBorder 2 2 2 2.

End Samples.

(** * Properties *)

(** ** The lookup [Get] *)
Section GetFacts.
Import rootio.
Local Open Scope string_scope.

Lemma parseDec_tail_semicolon (s t : string) (acc : N) :
  parseDec (s ++ String ";" t) acc = None.
Proof.
  revert acc; induction s as [|a s IH]; intros acc; simpl.
  - reflexivity.
  - destruct (digit a); [apply IH | reflexivity].
Qed.

Lemma parseCycle_tail_semicolon (s t : string) :
  parseCycle (s ++ String ";" t) = None.
Proof.
  destruct s as [|a s]; simpl; [reflexivity|].
  destruct (digit a); [apply parseDec_tail_semicolon | reflexivity].
Qed.

Lemma splitAt_cycle_zero (n : string) :
  exists p rest,
    splitAt ";" (n ++ ";0") = (p, Some rest) /\
    (parseCycle rest = None \/ parseCycle rest = Some 0%N).
Proof.
  induction n as [|a n IH].
  - exists "", "0". split; [reflexivity | right; reflexivity].
  - simpl.
    destruct (Ascii.eqb a ";") eqn:Ea.
    + exists "", (n ++ ";0"). split; [reflexivity|].
      left. apply parseCycle_tail_semicolon.
    + destruct IH as (p & rest & Hs & Hc). rewrite Hs.
      exists (String a p), rest. split; [reflexivity | exact Hc].
Qed.

Lemma maxCycle_ge (ks : list Key) (k : Key) :
  In k ks -> (cycle k <= maxCycle ks)%N.
Proof.
  unfold maxCycle. induction ks as [|k0 ks IH]; simpl; [tauto|].
  intros [-> | Hin]; [lia | specialize (IH Hin); lia].
Qed.

Lemma maxCycle_attained (ks : list Key) :
  ks <> [] -> exists k, In k ks /\ cycle k = maxCycle ks.
Proof.
  unfold maxCycle. induction ks as [|k0 ks IH]; [congruence|]. intros _.
  destruct ks as [|k1 ks].
  - exists k0. simpl. split; [tauto | lia].
  - destruct IH as (k & Hin & Hk); [congruence|].
    cbn [List.map fold_right] in *.
    destruct (N.max_spec (cycle k0)
                (N.max (cycle k1) (fold_right N.max 0%N (List.map cycle ks))))
      as [[_ ->] | [_ ->]].
    + exists k. split; [right; exact Hin | exact Hk].
    + exists k0. split; [left; reflexivity | reflexivity].
Qed.

Lemma keyAt_Some (c : N) (ks : list Key) (k : Key) :
  keyAt c ks = Some k -> In k ks /\ cycle k = c.
Proof.
  unfold keyAt. intros H. apply find_some in H as [Hin Hc].
  split; [exact Hin | now apply N.eqb_eq].
Qed.

Lemma keyAt_found (c : N) (ks : list Key) (k : Key) :
  In k ks -> cycle k = c -> exists k', keyAt c ks = Some k'.
Proof.
  unfold keyAt. intros Hin Hc.
  destruct (List.find _ ks) as [k'|] eqn:E; [eauto|].
  eapply find_none in E; [|exact Hin]. apply N.eqb_neq in E. congruence.
Qed.

Lemma keysNamed_In (n : string) (d : Directory) (k : Key) :
  In k (keysNamed n d) <-> In k d /\ name k = n.
Proof.
  unfold keysNamed. rewrite filter_In, String.eqb_eq. reflexivity.
Qed.

(** C3: for every directory and every name, the query [name;0] is not
    found, whatever keys the directory stores under that name. *)
Theorem Get_cycle_zero_not_found (d : Directory) (n : string) :
  Get d (n ++ ";0") = None.
Proof.
  unfold Get, decodeNameCycle.
  destruct (splitAt_cycle_zero n) as (p & rest & -> & [-> | ->]);
    reflexivity.
Qed.

(** C4: when the directory stores at least one key under [n] and the
    query asks for a cycle above the greatest cycle stored under [n], the
    lookup returns a key of the directory named [n] whose cycle is that
    greatest cycle. *)
Theorem Get_cycle_above_max_is_latest
    (d : Directory) (q n : string) (c : N)
    (Hq : decodeNameCycle q = Some (n, Some c))
    (Hne : keysNamed n d <> [])
    (Hc : (maxCycle (keysNamed n d) < c)%N) :
  exists k,
    Get d q = Some k /\ In k d /\ name k = n /\
    cycle k = maxCycle (keysNamed n d) /\
    forall k', In k' d -> name k' = n -> (cycle k' <= cycle k)%N.
Proof.
  destruct (maxCycle_attained _ Hne) as (km & Hkm & Hcm).
  destruct (keyAt_found _ _ _ Hkm Hcm) as (k & Hk).
  exists k. destruct (keyAt_Some _ _ _ Hk) as [Hin Hcy].
  apply keysNamed_In in Hin as [Hind Hname].
  repeat split; try assumption.
  - unfold Get. rewrite Hq. cbn zeta.
    assert (N.eqb c 0 = false) as -> by (apply N.eqb_neq; lia).
    destruct (keyAt c (keysNamed n d)) as [k'|] eqn:E.
    + apply keyAt_Some in E as [Hin' Hc'].
      apply maxCycle_ge in Hin'. lia.
    + destruct (keysNamed n d) eqn:Eks; [congruence|].
      rewrite <- Eks in *.
      assert ((maxCycle (keysNamed n d) <? c)%N = true) as ->
        by (apply N.ltb_lt; exact Hc).
      rewrite Eks in Hk |- *. exact Hk.
  - intros k' Hin' Hn'. rewrite Hcy. apply maxCycle_ge.
    apply keysNamed_In. split; assumption.
Qed.

(** The scenario of the directory test: one key [tree] at cycle 1. *)
Lemma Get_cycle_above_max_is_latest_witness :
  exists k,
    Get [mkKey "tree" "my tree title" "TTree" 1 100 10 20] "tree;9999"
      = Some k /\
    In k [mkKey "tree" "my tree title" "TTree" 1 100 10 20] /\
    name k = "tree" /\
    cycle k
      = maxCycle (keysNamed "tree"
                    [mkKey "tree" "my tree title" "TTree" 1 100 10 20]) /\
    forall k', In k' [mkKey "tree" "my tree title" "TTree" 1 100 10 20] ->
               name k' = "tree" -> (cycle k' <= cycle k)%N.
Proof.
  apply (Get_cycle_above_max_is_latest
           [mkKey "tree" "my tree title" "TTree" 1 100 10 20]
           "tree;9999" "tree" 9999%N).
  - reflexivity.
  - vm_compute. discriminate.
  - vm_compute. reflexivity.
Defined.

End GetFacts.

(** ** The sticky error and the registration *)
Section StickyAndInit.
Import rhist.
Context `{V : rvers.Versions} `{Rg : MapRange}.
Local Open Scope string_scope.

(** C6: on a buffer whose error is already set, each of the six codec
    operations of formula.go returns at once: the buffer comes back as it
    was (same bytes, same cursor, same error), [MarshalROOT] returns
    [0] and that error, [UnmarshalROOT] returns that error (the error of
    the buffer it leaves) and the receiver untouched, and the two readers
    return [nil]. *)
Theorem sticky_error_is_noop (e : Error) :
  (forall f bs,
      MarshalROOT f (mkW bs (Some e)) = ((0, Some e), mkW bs (Some e))) /\
  (forall factory fuel f bs c,
      UnmarshalROOT factory (S fuel) f (mkR bs c (Some e))
      = Ok f (mkR bs c (Some e))) /\
  (forall bs c,
      readMapStringInt (mkR bs c (Some e)) = Ok ∅ (mkR bs c (Some e))) /\
  (forall m bs,
      writeMapStringInt m (mkW bs (Some e)) = mkW bs (Some e)) /\
  (forall factory unmarshal bs c,
      readStdVectorObjP factory unmarshal (mkR bs c (Some e))
      = Ok [] (mkR bs c (Some e))) /\
  (forall marshal vs bs,
      writeStdVectorObjP marshal vs (mkW bs (Some e)) = mkW bs (Some e)).
Proof.
  repeat apply conj; intros; [destruct f | ..]; reflexivity.
Qed.

(** C10: after [init], whatever the factory held before, it has an entry
    for the class name TFormula, and the constructor stored there returns
    the value built by [newFormula], whose name and title are empty. *)
Theorem init_registers_TFormula
    (factory : gmap string (unit -> Formula)) :
  exists new,
    rtypes.Get "TFormula" (init factory) = Some new /\
    new tt = newFormula /\
    Name (new tt) = "" /\ Title (new tt) = "".
Proof.
  exists (fun _ => newFormula). unfold init, rtypes.Get, rtypes.Add.
  rewrite lookup_insert_eq. repeat apply conj; reflexivity.
Qed.

End StickyAndInit.

(** ** Version gating *)
Section Versions.
Import rhist.
Context `{V : rvers.Versions} `{Rg : MapRange}.
Local Open Scope string_scope.

Lemma rget_cursor {A} (n : nat) (dec : list byte -> A) (dflt : A)
    (r r' : RBuffer) (a : A) :
  rget n dec dflt r = Ok a r' ->
  r_p r' = r_p r /\ (r_c r <= r_c r' <= r_c r + n)%nat.
Proof.
  unfold rget. destruct (r_err r).
  - intros [= _ <-]. split; [reflexivity | lia].
  - destruct (r_c r + n <=? length (r_p r))%nat; intros [= _ <-]; simpl;
      (split; [reflexivity | lia]).
Qed.

(** The frame header is six bytes: [ReadVersion] moves the cursor by at
    most that much and reads nothing else. *)
Lemma ReadVersion_cursor (cls : string) (r r1 : RBuffer)
    (vers : Z) (pos : nat) (bcnt : Z) :
  ReadVersion cls r = Ok (vers, pos, bcnt) r1 ->
  r_p r1 = r_p r /\ (r_c r <= r_c r1 <= r_c r + 6)%nat.
Proof.
  unfold ReadVersion. destruct (r_err r).
  - intros [= _ _ _ <-]. split; [reflexivity | lia].
  - unfold rbytes.bind, ReadI16, ReadI32, ret.
    destruct (rget 2 decI16 0 r) as [v ra| |] eqn:E1; try discriminate.
    destruct (rget 4 decI32 0 ra) as [b rb| |] eqn:E2; try discriminate.
    intros [= _ _ _ <-].
    apply rget_cursor in E1 as [P1 C1], E2 as [P2 C2].
    split; [congruence | lia].
Qed.

(** C9: the two container readers accept the version [rvers.StreamerInfo]
    and no other.  On a buffer without error whose frame header carries
    any other version, smaller or greater, each sets the invalid-version
    error and returns [nil]; the buffer it leaves is the one [ReadVersion]
    left, at most the six header bytes further: neither the count nor an
    entry has been read. *)
Theorem container_version_is_exact
    (factory : gmap string (unit -> Formula))
    (unmarshal : Formula -> R Formula)
    (r r1 : RBuffer) (vers : Z) (pos : nat) (bcnt : Z)
    (Hr : r_err r = None)
    (Hv : forall cls, ReadVersion cls r = Ok (vers, pos, bcnt) r1)
    (Hne : vers <> rvers.StreamerInfo) :
  readMapStringInt r
  = Ok ∅ (SetErr (ErrInvalidVersion "map<TString,int,TFormulaParamOrder>"
                                    vers rvers.StreamerInfo) r1) /\
  readStdVectorObjP factory unmarshal r
  = Ok [] (SetErr (ErrInvalidVersion "vector<TObject*>"
                                     vers rvers.StreamerInfo) r1) /\
  (r_c r <= r_c r1 <= r_c r + 6)%nat.
Proof.
  assert ((vers =? rvers.StreamerInfo)%Z = false) as Hb
    by (apply Z.eqb_neq; exact Hne).
  repeat apply conj.
  - unfold readMapStringInt, rbytes.bind. rewrite Hr, Hv. cbn.
    rewrite Hb. reflexivity.
  - unfold readStdVectorObjP, rbytes.bind. rewrite Hr, Hv. cbn.
    rewrite Hb. reflexivity.
  - apply (ReadVersion_cursor "" _ _ _ _ _ (Hv "")).
  - apply (ReadVersion_cursor "" _ _ _ _ _ (Hv "")).
Qed.

(** C2: on a buffer without error, a frame version above [rvers.Formula]
    makes [UnmarshalROOT] fail with the unsupported-version error, and a
    version below 12 (the floor, which does not exceed [rvers.Formula])
    makes it fail with the obsolete-version error.  Either failure is
    raised with the buffer as [ReadVersion] left it, at most the six
    header bytes further: no field of the payload has been read. *)
Theorem UnmarshalROOT_version_gate
    (factory : gmap string (unit -> Formula)) (fuel : nat) (f : Formula)
    (r r1 : RBuffer) (vers : Z) (pos : nat) (bcnt : Z)
    (Hr : r_err r = None)
    (Hv : ReadVersion "TFormula" r = Ok (vers, pos, bcnt) r1)
    (Hfloor : 12 <= rvers.Formula) :
  (vers > rvers.Formula ->
   UnmarshalROOT factory (S fuel) f r
   = Panic (ErrUnsupportedVersion "TFormula" vers rvers.Formula) r1) /\
  (vers < 12 ->
   UnmarshalROOT factory (S fuel) f r
   = Panic (ErrObsoleteVersion "TFormula" vers 12) r1) /\
  (r_c r <= r_c r1 <= r_c r + 6)%nat.
Proof.
  repeat apply conj.
  - intros Hgt. cbn [UnmarshalROOT]. unfold rbytes.bind, Class.
    rewrite Hr, Hv.
    assert ((vers >? rvers.Formula)%Z = true) as -> by lia. reflexivity.
  - intros Hlt. cbn [UnmarshalROOT]. unfold rbytes.bind, Class.
    rewrite Hr, Hv.
    assert ((vers >? rvers.Formula)%Z = false) as -> by lia.
    assert ((vers <? 12)%Z = true) as -> by lia. reflexivity.
  - apply (ReadVersion_cursor _ _ _ _ _ _ Hv).
  - apply (ReadVersion_cursor _ _ _ _ _ _ Hv).
Qed.

End Versions.

Section VersionWitnesses.
Import rhist Samples.
Local Open Scope string_scope.

Lemma container_version_is_exact_witness :
  readMapStringInt (V := V0) r_v8
  = Ok ∅ (SetErr (ErrInvalidVersion "map<TString,int,TFormulaParamOrder>"
                                    8 9) (mkR (r_p r_v8) 6 None)) /\
  readStdVectorObjP (V := V0) ∅ (fun f => ret f) r_v8
  = Ok [] (SetErr (ErrInvalidVersion "vector<TObject*>" 8 9)
                  (mkR (r_p r_v8) 6 None)) /\
  (r_c r_v8 <= 6 <= r_c r_v8 + 6)%nat.
Proof.
  apply (container_version_is_exact (V := V0) ∅ (fun f => ret f)
           r_v8 (mkR (r_p r_v8) 6 None) 8 2%nat 4).
  - reflexivity.
  - intros cls. reflexivity.
  - simpl. lia.
Defined.

Lemma UnmarshalROOT_version_gate_witness :
  UnmarshalROOT (V := V0) ∅ 1 newFormula r_v14
  = Panic (ErrUnsupportedVersion "TFormula" 14 13)
          (mkR (r_p r_v14) 6 None) /\
  UnmarshalROOT (V := V0) ∅ 1 newFormula r_v11
  = Panic (ErrObsoleteVersion "TFormula" 11 12)
          (mkR (r_p r_v11) 6 None).
Proof.
  split.
  - apply (UnmarshalROOT_version_gate (V := V0) ∅ 0 newFormula
             r_v14 (mkR (r_p r_v14) 6 None) 14 2%nat 4);
      [reflexivity | reflexivity | simpl; lia | simpl; lia].
  - apply (UnmarshalROOT_version_gate (V := V0) ∅ 0 newFormula
             r_v11 (mkR (r_p r_v11) 6 None) 11 2%nat 4);
      [reflexivity | reflexivity | simpl; lia | simpl; lia].
Defined.

End VersionWitnesses.

(** ** The wire encodings are inverted by the decoders *)
Section WireFacts.
Import rhist Samples.

(** The two sample orders list every entry of the map once. *)
Lemma range_fwd_ok : RangeOk range_fwd.
Proof. intros t m. reflexivity. Qed.

Lemma range_bwd_ok : RangeOk range_bwd.
Proof. intros t m. symmetry. apply Permutation_rev. Qed.

Lemma length_be_split (n : nat) (z : Z) : length (be_split n z) = n.
Proof. unfold be_split. rewrite length_rev. apply length_le_split. Qed.

Lemma be_combine_split (n : nat) (z : Z) :
  be_combine (be_split n z) = z mod 2 ^ (Z.of_nat n * 8).
Proof.
  unfold be_combine, be_split. rewrite rev_involutive.
  apply le_combine_split.
Qed.

Lemma wrap_mod_small (bits z : Z) :
  0 < bits -> - 2 ^ (bits - 1) <= z < 2 ^ (bits - 1) ->
  wrap bits (z mod 2 ^ bits) = z.
Proof.
  intros Hb Hz. unfold wrap.
  assert (2 ^ bits = 2 * 2 ^ (bits - 1)) as E.
  { replace bits with (Z.succ (bits - 1)) at 1 by lia.
    rewrite Z.pow_succ_r by lia. reflexivity. }
  rewrite Z.add_mod_idemp_l by lia.
  rewrite Z.mod_small by lia. lia.
Qed.

Lemma length_encI16 (v : Z) : length (encI16 v) = 2%nat.
Proof. apply length_be_split. Qed.
Lemma length_encI32 (v : Z) : length (encI32 v) = 4%nat.
Proof. apply length_be_split. Qed.
Lemma length_encU64 (v : Z) : length (encU64 v) = 8%nat.
Proof. apply length_be_split. Qed.
Lemma length_encBool (b : bool) : length (encBool b) = 1%nat.
Proof. reflexivity. Qed.

Lemma decI16_encI16 (v : Z) : is_int16 v -> decI16 (encI16 v) = v.
Proof.
  intros Hv. unfold decI16, encI16, int16. rewrite be_combine_split.
  apply (wrap_mod_small 16); [lia | exact Hv].
Qed.

Lemma decI32_encI32 (v : Z) : is_int32 v -> decI32 (encI32 v) = v.
Proof.
  intros Hv. unfold decI32, encI32, int32. rewrite be_combine_split.
  apply (wrap_mod_small 32); [lia | exact Hv].
Qed.

Lemma decU64_encU64 (v : Z) : is_u64 v -> decU64 (encU64 v) = v.
Proof.
  intros Hv. unfold decU64, encU64. rewrite be_combine_split.
  apply Z.mod_small. exact Hv.
Qed.

Lemma decBool_encBool (b : bool) : decBool (encBool b) = b.
Proof. destruct b; reflexivity. Qed.

Lemma int32_small (z : Z) : is_int32 z -> int32 z = z.
Proof.
  intros Hz. unfold int32, wrap. unfold is_int32 in Hz.
  rewrite Z.mod_small by lia. lia.
Qed.

Lemma length_list_byte_of_string (s : string) :
  length (list_byte_of_string s) = String.length s.
Proof. induction s as [|a s IH]; simpl; [reflexivity | f_equal; exact IH]. Qed.

Lemma length_encString (s : string) :
  length (encString s) = (4 + String.length s)%nat.
Proof.
  unfold encString.
  rewrite length_app, length_encI32, length_list_byte_of_string.
  reflexivity.
Qed.

Lemma is_int32b_true (z : Z) : is_int32b z = true <-> is_int32 z.
Proof. unfold is_int32b, is_int32. lia. Qed.
Lemma is_u64b_true (z : Z) : is_u64b z = true <-> is_u64 z.
Proof. unfold is_u64b, is_u64. lia. Qed.

End WireFacts.

(** ** Reading back what was written *)
Section Buffers.
Import rhist Layout.

Lemma at_advance (r : RBuffer) (bs rest : list byte) :
  at_ r (bs ++ rest) -> at_ (advance (length bs) r) rest.
Proof.
  intros (He & Hc & Hr). unfold at_, advance, remaining in *. simpl.
  assert (length (drop (r_c r) (r_p r)) = (length bs + length rest)%nat) as Hl
    by (rewrite Hr; apply length_app).
  rewrite length_drop in Hl.
  repeat split; [lia|].
  rewrite <- drop_drop, Hr. apply drop_app_length.
Qed.

Lemma advance_advance (n m : nat) (r : RBuffer) :
  advance m (advance n r) = advance (n + m) r.
Proof. unfold advance. simpl. f_equal. lia. Qed.

Lemma advance_0 (r : RBuffer) : r_err r = None -> advance 0 r = r.
Proof.
  destruct r as [p c e]. simpl. intros ->. unfold advance. simpl.
  f_equal. lia.
Qed.

Lemma at_here (r : RBuffer) (bs : list byte) :
  at_ r bs -> r_err r = None.
Proof. now intros (He & _). Qed.

Lemma rget_at {A} (n : nat) (dec : list byte -> A) (dflt : A)
    (r : RBuffer) (bs rest : list byte) :
  length bs = n -> at_ r (bs ++ rest) ->
  rget n dec dflt r = Ok (dec bs) (advance n r).
Proof.
  intros Hn (He & Hc & Hr). unfold rget, remaining in *. rewrite He.
  assert (length (drop (r_c r) (r_p r)) = (length bs + length rest)%nat) as Hl
    by (rewrite Hr; apply length_app).
  rewrite length_drop in Hl.
  assert ((r_c r + n <=? length (r_p r))%nat = true) as ->
    by (apply Nat.leb_le; lia).
  rewrite Hr. rewrite <- Hn, take_app_length. reflexivity.
Qed.

Lemma reads_rget {A} (n : nat) (dec : list byte -> A) (dflt : A)
    (bs : list byte) :
  length bs = n -> reads (rget n dec dflt) bs (dec bs).
Proof.
  intros Hn B k r rest Hat. unfold rbytes.bind.
  rewrite (rget_at n dec dflt r bs rest Hn Hat). now rewrite Hn.
Qed.

Lemma reads_rget_eq {A} (n : nat) (dec : list byte -> A) (dflt : A)
    (bs : list byte) (a : A) :
  length bs = n -> dec bs = a -> reads (rget n dec dflt) bs a.
Proof. intros Hn <-. now apply reads_rget. Qed.

Lemma reads_I16 (v : Z) : is_int16 v -> reads ReadI16 (encI16 v) v.
Proof.
  intros Hv. apply reads_rget_eq; [apply length_encI16|].
  now apply decI16_encI16.
Qed.

Lemma reads_I32 (v : Z) : is_int32 v -> reads ReadI32 (encI32 v) v.
Proof.
  intros Hv. apply reads_rget_eq; [apply length_encI32|].
  now apply decI32_encI32.
Qed.

Lemma reads_U64 (v : Z) : is_u64 v -> reads ReadU64 (encU64 v) v.
Proof.
  intros Hv. apply reads_rget_eq; [apply length_encU64|].
  now apply decU64_encU64.
Qed.

Lemma reads_Bool (b : bool) : reads ReadBool (encBool b) b.
Proof.
  apply reads_rget_eq; [apply length_encBool | apply decBool_encBool].
Qed.

Lemma reads_ret {A} (a : A) : reads (ret a) [] a.
Proof.
  intros B k r rest Hat. unfold rbytes.bind, ret. simpl.
  now rewrite advance_0 by (eapply at_here; exact Hat).
Qed.

Lemma reads_bind {A B} (m : R A) (f : A -> R B) (bs bs' : list byte)
    (a : A) (b : B) :
  reads m bs a -> reads (f a) bs' b ->
  reads (rbytes.bind m f) (bs ++ bs') b.
Proof.
  intros Hm Hf C k r rest Hat. rewrite <- app_assoc in Hat.
  transitivity (rbytes.bind (f a) k (advance (length bs) r)).
  { unfold rbytes.bind at 1. rewrite (Hm _ f r _ Hat). reflexivity. }
  rewrite (Hf _ _ _ rest (at_advance _ _ _ Hat)).
  rewrite advance_advance, length_app. reflexivity.
Qed.

Lemma reads_String (s : string) :
  Z.of_nat (String.length s) < 2 ^ 31 -> reads ReadString (encString s) s.
Proof.
  intros Hs. unfold ReadString, encString.
  apply reads_bind with (a := Z.of_nat (String.length s)).
  - apply reads_I32. unfold is_int32. lia.
  - assert ((Z.of_nat (String.length s) <? 0) = false) as -> by lia.
    rewrite Nat2Z.id.
    apply reads_rget_eq; [apply length_list_byte_of_string|].
    apply string_of_list_byte_of_string.
Qed.

Lemma reads_readN {A} (rd : R A) (enc : A -> list byte) (l : list A) :
  Forall (fun a => reads rd (enc a) a) l ->
  reads (readN (length l) rd) (flat_map enc l) l.
Proof.
  induction 1 as [|a l Ha _ IH]; simpl.
  - apply reads_ret.
  - apply reads_bind with (a := a); [exact Ha|].
    rewrite <- (app_nil_r (flat_map enc l)).
    apply reads_bind with (a := l); [exact IH | apply reads_ret].
Qed.

End Buffers.

(** One field read: [H] says what the reader at the head of the goal
    decodes from the bytes at the cursor. *)
Ltac rd_step H :=
  match goal with
  | Hat : Layout.at_ ?r (?bs ++ ?rest) |- _ =>
      rewrite (H _ _ r rest Hat); apply at_advance in Hat; cbv beta
  end.

(** ** Frames *)
Section Frames.
Import rhist Layout.
Context `{V : rvers.Versions}.

Lemma wput_ok (bs : list byte) (w : WBuffer) :
  w_err w = None -> wput bs w = mkW (w_p w ++ bs) None.
Proof. intros H. unfold wput. now rewrite H. Qed.

Lemma codec_wput {A} (bs : list byte) (rd : R A) (a : A) :
  reads rd bs a -> codec (wput bs) rd a (length bs).
Proof.
  intros H w Hw. exists bs.
  repeat apply conj; [now apply wput_ok | reflexivity | exact H].
Qed.

Lemma reads_guard {A} (rd rd' : R A) (bs : list byte) (a : A) :
  (forall r, r_err r = None -> rd r = rd' r) ->
  reads rd' bs a -> reads rd bs a.
Proof.
  intros E H B k r rest Hat. unfold rbytes.bind.
  rewrite E by (eapply at_here; exact Hat). apply (H B k r rest Hat).
Qed.

Lemma codec_I32 (v : Z) : is_int32 v -> codec (WriteI32 v) ReadI32 v 4.
Proof.
  intros Hv. rewrite <- (length_encI32 v). apply codec_wput, reads_I32, Hv.
Qed.

Lemma codec_Bool (b : bool) : codec (WriteBool b) ReadBool b 1.
Proof. apply (codec_wput (encBool b)), reads_Bool. Qed.

Lemma codec_String (s : string) :
  Z.of_nat (szString s) < 2 ^ 31 ->
  codec (WriteString s) ReadString s (szString s).
Proof.
  intros Hs. unfold szString in *. rewrite <- length_encString.
  apply codec_wput, reads_String. lia.
Qed.

Lemma length_flat_map_encU64 (l : list Z) :
  length (flat_map encU64 l) = (8 * length l)%nat.
Proof.
  induction l as [|x l IH]; [reflexivity|].
  cbn [flat_map length]. rewrite length_app, length_encU64, IH. lia.
Qed.

Lemma codec_VecF64 (l old : list Z) :
  Forall is_u64 l -> Z.of_nat (szVecF64 l) < 2 ^ 31 ->
  codec (WriteStdVectorF64 l) (ReadStdVectorF64 old) l (szVecF64 l).
Proof.
  intros Hl Hs w Hw. unfold szVecF64 in *.
  assert (is_int32 (Z.of_nat (length l))) as Hn by (unfold is_int32; lia).
  exists (encI32 (Z.of_nat (length l)) ++ flat_map encU64 l).
  repeat apply conj.
  - unfold WriteStdVectorF64. rewrite int32_small by exact Hn.
    now apply wput_ok.
  - rewrite length_app, length_encI32, length_flat_map_encU64. reflexivity.
  - apply reads_guard with
      (rd' := rbytes.bind ReadI32 (fun n =>
                if n <? 0
                then fun r => Ok old (SetErr ErrBufferExhausted r)
                else readN (Z.to_nat n) ReadU64)).
    + intros r Hr. unfold ReadStdVectorF64. now rewrite Hr.
    + apply reads_bind with (a := Z.of_nat (length l));
        [apply reads_I32, Hn|].
      assert ((Z.of_nat (length l) <? 0) = false) as -> by lia.
      rewrite Nat2Z.id. apply reads_readN.
      eapply Forall_impl; [exact Hl|]. intros x Hx. now apply reads_U64.
Qed.

Lemma length_encFrame (v : Z) (payload : list byte) :
  length (encFrame v payload) = (6 + length payload)%nat.
Proof.
  unfold encFrame. rewrite !length_app, length_encI16, length_encI32.
  reflexivity.
Qed.

Lemma WriteVersion_ok (v : Z) (w : WBuffer) :
  w_err w = None ->
  WriteVersion v w
  = ((length (w_p w) + 2)%nat, mkW ((w_p w ++ encI16 v) ++ encI32 0) None).
Proof.
  intros Hw. unfold WriteVersion, WriteI16, WPos. rewrite Hw.
  rewrite (wput_ok _ w Hw). cbn [w_p wput w_err].
  now rewrite length_app, length_encI16.
Qed.

Lemma SetByteCount_ok (p : list byte) (v : Z) (cls : string)
    (payload : list byte) :
  Z.of_nat (4 + length payload) < 2 ^ 31 ->
  SetByteCount (length p + 2) cls
               (mkW (((p ++ encI16 v) ++ encI32 0) ++ payload) None)
  = ((Z.of_nat (4 + length payload), None),
     mkW (p ++ encFrame v payload) None).
Proof.
  intros Hb. unfold SetByteCount, WPos. cbn [w_err w_p].
  rewrite !length_app, length_encI16, length_encI32.
  replace (Z.of_nat (length p + 2 + 4 + length payload)
           - Z.of_nat (length p + 2))
    with (Z.of_nat (4 + length payload)) by lia.
  rewrite int32_small by (unfold is_int32; lia).
  f_equal. f_equal. unfold encFrame.
  assert (length (p ++ encI16 v) = (length p + 2)%nat) as Hl
    by (now rewrite length_app, length_encI16).
  rewrite <- (app_assoc (p ++ encI16 v)).
  rewrite <- Hl at 1. rewrite take_app_length.
  replace (length p + 2 + 4)%nat
    with (length ((p ++ encI16 v) ++ encI32 0))
    by (rewrite length_app, Hl, length_encI32; reflexivity).
  rewrite (app_assoc (p ++ encI16 v) (encI32 0) payload), drop_app_length.
  now rewrite <- !app_assoc.
Qed.

Lemma ReadVersion_at {B} (cls : string) (v n : Z)
    (K : Z * nat * Z -> R B) (r : RBuffer) (rest : list byte) :
  is_int16 v -> is_int32 n ->
  at_ r (encI16 v ++ encI32 n ++ rest) ->
  rbytes.bind (ReadVersion cls) K r = K (v, (r_c r + 2)%nat, n) (advance 6 r).
Proof.
  intros Hv Hn Hat. unfold rbytes.bind at 1. unfold ReadVersion.
  rewrite (at_here _ _ Hat).
  rewrite (reads_I16 v Hv _ _ r _ Hat).
  apply at_advance in Hat. rewrite length_encI16 in *.
  rewrite (reads_I32 n Hn _ _ _ _ Hat). rewrite length_encI32.
  unfold ret. rewrite advance_advance. reflexivity.
Qed.

Lemma CheckByteCount_at {B} (pos : nat) (bcnt : Z) (beg : nat)
    (cls : string) (K : unit -> R B) (r : RBuffer) :
  r_err r = None -> Z.of_nat (r_c r) - Z.of_nat pos = bcnt ->
  rbytes.bind (CheckByteCount pos bcnt beg cls) K r = K tt r.
Proof.
  intros He Hc. unfold rbytes.bind, CheckByteCount. rewrite He.
  assert ((Z.of_nat (r_c r) - Z.of_nat pos =? bcnt) = true) as -> by lia.
  reflexivity.
Qed.

Lemma CheckByteCount_mismatch (pos : nat) (bcnt : Z) (beg : nat)
    (cls : string) (r : RBuffer) :
  r_err r = None -> Z.of_nat (r_c r) - Z.of_nat pos <> bcnt ->
  CheckByteCount pos bcnt beg cls r
  = Ok tt (SetErr (ErrFrameLengthMismatch cls bcnt
                     (Z.of_nat (r_c r) - Z.of_nat pos)) r).
Proof.
  intros He Hc. unfold CheckByteCount. rewrite He.
  assert ((Z.of_nat (r_c r) - Z.of_nat pos =? bcnt) = false) as -> by lia.
  reflexivity.
Qed.

End Frames.

(** ** The Named base and the map container *)
Section Containers.
Import rhist Layout.
Context `{V : rvers.Versions}.

Lemma codec_Named (nm old : rbase.Named) :
  is_int16 rvers.Named -> Z.of_nat (szNamed nm) < 2 ^ 31 ->
  codec (fun w => snd (rbase.MarshalROOT nm w)) (rbase.UnmarshalROOT old)
        nm (szNamed nm).
Proof.
  intros Hv Hs w Hw. destruct nm as [n t].
  unfold szNamed, szString in *. cbn [rbase.name rbase.title] in *.
  pose (payload := encString n ++ encString t).
  assert (length payload = (4 + String.length n + (4 + String.length t))%nat)
    as Hlen by (unfold payload; now rewrite length_app, !length_encString).
  exists (encFrame rvers.Named payload). repeat apply conj.
  - unfold rbase.MarshalROOT. rewrite Hw, (WriteVersion_ok _ _ Hw).
    cbn [rbase.name rbase.title]. unfold WriteString.
    rewrite !wput_ok by reflexivity. cbn [w_p].
    rewrite <- (app_assoc _ (encString n) (encString t)). fold payload.
    rewrite SetByteCount_ok by lia. reflexivity.
  - rewrite length_encFrame, Hlen. lia.
  - intros B k r rest Hat. unfold rbytes.bind at 1.
    unfold rbase.UnmarshalROOT. rewrite (at_here _ _ Hat).
    unfold encFrame in Hat. rewrite <- !app_assoc in Hat.
    assert (is_int32 (Z.of_nat (4 + length payload))) as Hn
      by (unfold is_int32; lia).
    rewrite (ReadVersion_at _ _ _ _ _ _ Hv Hn Hat).
    assert ((rvers.Named >? rvers.Named) = false) as -> by lia.
    do 2 apply at_advance in Hat. rewrite length_encI16, length_encI32 in Hat.
    rewrite advance_advance in Hat. cbn [Nat.add] in Hat.
    unfold payload in Hat. rewrite <- app_assoc in Hat.
    rd_step (reads_String n ltac:(lia)).
    rd_step (reads_String t ltac:(lia)).
    rewrite CheckByteCount_at.
    + unfold ret. f_equal. unfold advance. cbn [r_p r_c].
      rewrite length_encFrame, Hlen, !length_encString. f_equal. lia.
    + reflexivity.
    + unfold advance. cbn [r_c]. rewrite !length_encString, Hlen. lia.
Qed.

Lemma codec_Object {A}
    (marshal : WBuffer -> (Z * option Error) * WBuffer)
    (unmarshal : A -> R A) (obj a : A) (sz : nat) :
  codec (fun w => snd (marshal w)) (unmarshal obj) a sz ->
  codec (WriteObject marshal) (ReadObject obj unmarshal) a sz.
Proof.
  intros H w Hw. destruct (H w Hw) as (bs & E & L & Rd).
  exists bs. unfold WriteObject. rewrite Hw.
  split; [exact E | split; [exact L|]].
  apply reads_guard with (rd' := unmarshal obj); [|exact Rd].
  intros r Hr. unfold ReadObject. now rewrite Hr.
Qed.

Lemma frame_enter {B} (cls : string) (v : Z) (payload : list byte)
    (K : Z * nat * Z -> R B) (r : RBuffer) (rest : list byte) :
  is_int16 v -> Z.of_nat (4 + length payload) < 2 ^ 31 ->
  at_ r (encFrame v payload ++ rest) ->
  rbytes.bind (ReadVersion cls) K r
  = K (v, (r_c r + 2)%nat, Z.of_nat (4 + length payload)) (advance 6 r) /\
  at_ (advance 6 r) (payload ++ rest).
Proof.
  intros Hv Hb Hat. unfold encFrame in Hat. rewrite <- !app_assoc in Hat.
  assert (is_int32 (Z.of_nat (4 + length payload))) as Hn
    by (unfold is_int32; lia).
  split; [exact (ReadVersion_at _ _ _ _ _ _ Hv Hn Hat)|].
  do 2 apply at_advance in Hat. rewrite length_encI16, length_encI32 in Hat.
  now rewrite advance_advance in Hat.
Qed.

Lemma length_encPairs (l : list (string * Z)) :
  length (encPairs l) = szPairs l.
Proof.
  induction l as [|kv l IH]; [reflexivity|].
  change (encPairs (kv :: l)) with (encPair kv ++ encPairs l).
  change (szPairs (kv :: l)) with (szPair kv + szPairs l)%nat.
  rewrite length_app, IH. f_equal. unfold encPair, szPair, szString.
  now rewrite length_app, length_encString, length_encI32.
Qed.

Lemma szPairs_cons (kv : string * Z) (l : list (string * Z)) :
  szPairs (kv :: l) = (szPair kv + szPairs l)%nat.
Proof. reflexivity. Qed.

Lemma szPairs_perm (l l' : list (string * Z)) :
  l ≡ₚ l' -> szPairs l = szPairs l'.
Proof. induction 1; rewrite ?szPairs_cons; lia. Qed.

Lemma szPair_le (kv : string * Z) (l : list (string * Z)) :
  In kv l -> (szPair kv <= szPairs l)%nat.
Proof.
  induction l as [|x l IH]; [intros []|]. rewrite szPairs_cons.
  intros [-> | H]; [lia | specialize (IH H); lia].
Qed.

Lemma fold_pairs_ok (l : list (string * Z)) (w : WBuffer) :
  w_err w = None ->
  fold_left (fun w kv => WriteI32 (snd kv) (WriteString (fst kv) w)) l w
  = mkW (w_p w ++ encPairs l) None.
Proof.
  revert w. induction l as [|kv l IH]; intros w Hw.
  - destruct w as [p e]. simpl in *. subst e. now rewrite app_nil_r.
  - cbn [fold_left]. unfold WriteI32, WriteString.
    rewrite (wput_ok _ w Hw), wput_ok by reflexivity.
    rewrite IH by reflexivity. cbn [w_p]. unfold encPairs, encPair.
    cbn [flat_map]. now rewrite <- !app_assoc.
Qed.

Lemma reads_readPairs (l : list (string * Z)) (acc : gmap string Z) :
  Forall pair_ok l ->
  reads (readPairs (length l) acc) (encPairs l)
        (fold_left (fun o kv => <[fst kv := snd kv]> o) l acc).
Proof.
  intros Hl. revert acc. induction Hl as [|[k v] l [Hk Hv] _ IH]; intros acc.
  - apply reads_ret.
  - cbn [length readPairs fold_left fst snd]. unfold encPairs.
    cbn [flat_map]. unfold encPair at 1. cbn [fst snd].
    rewrite <- app_assoc.
    unfold szString in Hk. cbn [fst snd] in Hk, Hv.
    apply reads_bind with (a := k); [apply reads_String; lia|].
    apply reads_bind with (a := v); [now apply reads_I32|].
    apply IH.
Qed.

(** What the loop of [readMapStringInt] builds: a key is bound to the value
    of its last occurrence, and keeps its earlier binding otherwise. *)
Lemma fold_insert_lookup (l : list (string * Z)) (acc : gmap string Z)
    (k : string) :
  fold_left (fun o kv => <[fst kv := snd kv]> o) l acc !! k
  = match lastOcc k l with
    | Some v => Some v
    | None => acc !! k
    end.
Proof.
  revert acc. induction l as [|[k' v'] l IH]; intros acc; [reflexivity|].
  cbn [fold_left lastOcc fst snd]. rewrite IH.
  destruct (lastOcc k l); [reflexivity|].
  destruct (String.eqb_spec k' k) as [-> | Hne].
  - apply lookup_insert_eq.
  - now apply lookup_insert_ne.
Qed.

Lemma lastOcc_In (k : string) (v : Z) (l : list (string * Z)) :
  lastOcc k l = Some v -> In (k, v) l.
Proof.
  induction l as [|[k' v'] l IH]; cbn [lastOcc In]; [discriminate|].
  destruct (lastOcc k l).
  - intros [= ->]. right. now apply IH.
  - destruct (String.eqb_spec k' k) as [-> | Hne]; [|discriminate].
    intros [= ->]. now left.
Qed.

Lemma lastOcc_None (k : string) (l : list (string * Z)) :
  lastOcc k l = None -> forall v, ~ In (k, v) l.
Proof.
  induction l as [|[k' v'] l IH]; cbn [lastOcc In]; [tauto|].
  destruct (lastOcc k l); [discriminate|].
  destruct (String.eqb_spec k' k) as [-> | Hne]; [discriminate|].
  intros _ v [[= -> ->] | H]; [congruence | now apply (IH eq_refl v)].
Qed.

Lemma fold_insert_map_to_list (l : list (string * Z)) (m : gmap string Z) :
  l ≡ₚ map_to_list m ->
  fold_left (fun o kv => <[fst kv := snd kv]> o) l ∅ = m.
Proof.
  intros Hp. apply map_eq. intros k. rewrite fold_insert_lookup.
  destruct (lastOcc k l) as [v|] eqn:E.
  - apply lastOcc_In in E. symmetry. apply elem_of_map_to_list.
    rewrite <- Hp. now apply list_elem_of_In.
  - rewrite lookup_empty. destruct (m !! k) as [v|] eqn:Em; [|reflexivity].
    exfalso. apply (lastOcc_None _ _ E v). apply list_elem_of_In.
    rewrite Hp. now apply elem_of_map_to_list.
Qed.

End Containers.

(** ** The string-to-int32 container *)
Section MapContainer.
Import rhist Layout.
Context `{V : rvers.Versions}.

(** [readMapStringInt] on a frame of version [rvers.StreamerInfo] holding a
    count and that many pairs: the loop has read the pairs into the map and
    only the check of the byte count is left. *)
Lemma readMapStringInt_pairs (l : list (string * Z)) (bcnt : Z)
    (r : RBuffer) (rest : list byte) :
  is_int16 rvers.StreamerInfo -> is_int32 bcnt ->
  Forall pair_ok l -> Z.of_nat (length l) < 2 ^ 31 ->
  at_ r (encI16 rvers.StreamerInfo ++ encI32 bcnt
         ++ encI32 (Z.of_nat (length l)) ++ encPairs l ++ rest) ->
  readMapStringInt r
  = rbytes.bind
      (CheckByteCount (r_c r + 2) bcnt (r_c r)
                      "map<TString,int,TFormulaParamOrder>")
      (fun _ => ret (fold_left (fun o kv => <[fst kv := snd kv]> o) l ∅))
      (advance (10 + length (encPairs l)) r) /\
  at_ (advance (10 + length (encPairs l)) r) rest.
Proof.
  intros Hv Hb Hl Hn Hat. unfold readMapStringInt.
  rewrite (at_here _ _ Hat). cbv zeta. unfold RPos.
  rewrite (ReadVersion_at _ _ _ _ _ _ Hv Hb Hat).
  assert (negb (rvers.StreamerInfo =? rvers.StreamerInfo) = false) as ->
    by (rewrite Z.eqb_refl; reflexivity).
  do 2 apply at_advance in Hat. rewrite length_encI16, length_encI32 in Hat.
  rewrite advance_advance in Hat. cbn [Nat.add] in Hat.
  rd_step (reads_I32 (Z.of_nat (length l)) ltac:(unfold is_int32; lia)).
  rewrite Nat2Z.id.
  rd_step (reads_readPairs l ∅ Hl).
  rewrite length_encI32, !advance_advance in *. cbn [Nat.add] in *.
  split; [reflexivity | exact Hat].
Qed.

Lemma at_start (pre bs : list byte) :
  at_ (mkR (pre ++ bs) (length pre) None) bs.
Proof.
  unfold at_, remaining. cbn [r_err r_c r_p]. repeat apply conj.
  - reflexivity.
  - rewrite length_app. lia.
  - apply drop_app_length.
Qed.

(** C8: the container holds a frame of version [rvers.StreamerInfo], the
    count [n] and the [n] pairs [l], whatever byte count the frame records.
    [readMapStringInt] returns a map in which every key is bound to the
    value of its last occurrence in [l] (and keys that do not occur are
    unbound), having read exactly the header, the count and the pairs. *)
Theorem readMapStringInt_last_occurrence
    (l : list (string * Z)) (bcnt : Z) (pre rest : list byte)
    (Hv : is_int16 rvers.StreamerInfo) (Hb : is_int32 bcnt)
    (Hl : Forall pair_ok l) (Hn : Z.of_nat (length l) < 2 ^ 31) :
  exists m r',
    readMapStringInt
      (mkR (pre ++ encI16 rvers.StreamerInfo ++ encI32 bcnt
                ++ encI32 (Z.of_nat (length l)) ++ encPairs l ++ rest)
           (length pre) None)
    = Ok m r' /\
    (forall k, m !! k = lastOcc k l) /\
    r_c r' = (length pre + (10 + length (encPairs l)))%nat.
Proof.
  destruct (readMapStringInt_pairs l bcnt _ rest Hv Hb Hl Hn
              (at_start pre _)) as [-> Hat].
  unfold rbytes.bind, CheckByteCount. rewrite (at_here _ _ Hat).
  match goal with |- context [if ?c then _ else _] => destruct c end;
    eexists _, _; (repeat apply conj; [reflexivity | | reflexivity]);
    intros k; rewrite fold_insert_lookup, lookup_empty;
    destruct (lastOcc k l); reflexivity.
Qed.

Lemma length_le_szPairs (l : list (string * Z)) :
  (length l <= szPairs l)%nat.
Proof.
  induction l as [|kv l IH]; [reflexivity|]. rewrite szPairs_cons.
  unfold szPair, szString. cbn [length]. lia.
Qed.

Lemma WriteI32_ok (v : Z) (w : WBuffer) :
  w_err w = None -> WriteI32 v w = mkW (w_p w ++ encI32 v) None.
Proof. apply wput_ok. Qed.

Lemma codec_Map `{Rg : MapRange} `{HRg : !RangeOk Rg} (m : gmap string Z) :
  is_int16 rvers.StreamerInfo ->
  Forall (fun kv => is_int32 (snd kv)) (map_to_list m) ->
  Z.of_nat (szMap m) < 2 ^ 31 ->
  codec (writeMapStringInt m) readMapStringInt m (szMap m).
Proof.
  intros Hv Hvals Hs w Hw. unfold szMap in *.
  pose (l := range (length (w_p w) + 2 + 4 + 4)%nat m).
  assert (l ≡ₚ map_to_list m) as Hp by apply range_perm.
  assert (length l = size m) as Hlen
    by (rewrite Hp; apply length_map_to_list).
  assert (szPairs l = szPairs (map_to_list m)) as Hsz
    by (now apply szPairs_perm).
  pose proof (length_le_szPairs l) as Hcnt.
  assert (Forall pair_ok l) as Hok.
  { apply List.Forall_forall. intros kv Hin. split.
    - pose proof (szPair_le kv l Hin) as Hle. unfold szPair in Hle. lia.
    - rewrite List.Forall_forall in Hvals. apply Hvals.
      apply list_elem_of_In. rewrite <- Hp. now apply list_elem_of_In. }
  pose (payload := encI32 (Z.of_nat (length l)) ++ encPairs l).
  assert (length payload = (4 + szPairs l)%nat) as Hpl
    by (unfold payload; now rewrite length_app, length_encI32, length_encPairs).
  exists (encFrame rvers.StreamerInfo payload). repeat apply conj.
  - unfold writeMapStringInt. rewrite Hw, (WriteVersion_ok _ _ Hw).
    rewrite (WriteI32_ok _ (mkW _ None)) by reflexivity.
    unfold WPos. cbn [w_p]. rewrite !length_app, length_encI16, !length_encI32.
    fold l. rewrite fold_pairs_ok by reflexivity. cbn [w_p].
    rewrite int32_small by (unfold is_int32; lia). rewrite <- Hlen.
    rewrite <- (app_assoc _ (encI32 (Z.of_nat (length l))) (encPairs l)).
    fold payload. rewrite SetByteCount_ok by lia. reflexivity.
  - rewrite length_encFrame, Hpl. lia.
  - intros B k r rest Hat. unfold rbytes.bind at 1.
    unfold encFrame in Hat. rewrite <- !app_assoc in Hat.
    assert (payload ++ rest
            = encI32 (Z.of_nat (length l)) ++ encPairs l ++ rest) as Ep
      by (unfold payload; now rewrite <- app_assoc).
    rewrite Ep in Hat.
    assert (is_int32 (Z.of_nat (4 + length payload))) as Hb
      by (unfold is_int32; lia).
    destruct (readMapStringInt_pairs l _ r rest Hv Hb Hok ltac:(lia) Hat)
      as [-> Hat'].
    rewrite CheckByteCount_at.
    + unfold ret.
      rewrite (fold_insert_map_to_list l m Hp), length_encFrame, Hpl,
        length_encPairs.
      reflexivity.
    + exact (at_here _ _ Hat').
    + unfold advance. cbn [r_c]. fold payload.
      rewrite Hpl, length_encPairs. lia.
Qed.

End MapContainer.

(** ** Object references and the vector of objects *)
Section Objects.
Import rhist Layout.
Context `{V : rvers.Versions}.

Lemma list_sum_cons (x : nat) (l : list nat) :
  list_sum (x :: l) = (x + list_sum l)%nat.
Proof. reflexivity. Qed.

Lemma codec_list {A} (wr : A -> WBuffer -> WBuffer) (rd : R A)
    (sz : A -> nat) (l : list A) :
  Forall (fun a => codec (wr a) rd a (sz a)) l ->
  codec (fun w => fold_left (fun w a => wr a w) l w) (readN (length l) rd) l
        (list_sum (List.map sz l)).
Proof.
  induction 1 as [|a l Ha _ IH]; intros w Hw.
  - exists []. repeat apply conj; [|reflexivity | apply reads_ret].
    destruct w as [p e]. simpl in *. subst e. now rewrite app_nil_r.
  - destruct (Ha w Hw) as (bs1 & E1 & L1 & R1).
    destruct (IH (mkW (w_p w ++ bs1) None) eq_refl) as (bs2 & E2 & L2 & R2).
    exists (bs1 ++ bs2). repeat apply conj.
    + cbn [fold_left]. rewrite E1. cbv beta in E2. rewrite E2. cbn [w_p].
      now rewrite <- app_assoc.
    + rewrite length_app, L1, L2. reflexivity.
    + cbn [length readN].
      apply reads_bind with (a := a); [exact R1|].
      rewrite <- (app_nil_r bs2).
      apply reads_bind with (a := l); [exact R2 | apply reads_ret].
Qed.

Lemma codec_ObjectAny (factory : gmap string (unit -> Formula))
    (new : unit -> Formula)
    (marshal : Formula -> WBuffer -> (Z * option Error) * WBuffer)
    (unmarshal : Formula -> R Formula) (o : option Formula) :
  factory !! "TFormula"%string = Some new ->
  match o with
  | None => True
  | Some g =>
      Z.of_nat (szFormula g) < 2 ^ 31 /\
      codec (fun w => snd (marshal g w)) (unmarshal (new tt)) g (szFormula g)
  end ->
  codec (WriteObjectAny Class marshal o) (ReadObjectAny factory unmarshal) o
        (szObj o).
Proof.
  intros Hreg Ho w Hw. destruct o as [g|].
  - destruct Ho as [Hsz Hg].
    destruct (Hg (mkW (w_p w ++ encString "TFormula") None) eq_refl)
      as (bs & E & L & Rg). cbv beta in E. cbn [w_p] in E.
    exists (encString "TFormula" ++ bs). repeat apply conj.
    + unfold WriteObjectAny, Class, WriteString. rewrite Hw.
      rewrite (wput_ok _ w Hw), E. now rewrite <- app_assoc.
    + rewrite length_app, L. reflexivity.
    + intros B k r rest Hat. unfold rbytes.bind at 1.
      unfold ReadObjectAny. rewrite (at_here _ _ Hat).
      rewrite <- app_assoc in Hat.
      rd_step (reads_String "TFormula" ltac:(simpl; lia)).
      rewrite (at_here _ _ Hat). cbn [String.eqb Ascii.eqb Bool.eqb].
      rewrite Hreg. rd_step Rg. unfold ret.
      now rewrite advance_advance, length_app.
  - exists (encString ""). repeat apply conj.
    + unfold WriteObjectAny, WriteString. rewrite Hw. now apply wput_ok.
    + reflexivity.
    + intros B k r rest Hat. unfold rbytes.bind at 1.
      unfold ReadObjectAny. rewrite (at_here _ _ Hat).
      rd_step (reads_String "" ltac:(simpl; lia)).
      rewrite (at_here _ _ Hat). reflexivity.
Qed.

Lemma codec_VecObj (factory : gmap string (unit -> Formula))
    (marshal : Formula -> WBuffer -> (Z * option Error) * WBuffer)
    (unmarshal : Formula -> R Formula) (lp : list (option Formula)) :
  is_int16 rvers.StreamerInfo ->
  Z.of_nat (szVecObj lp) < 2 ^ 31 ->
  Forall (fun o => codec (WriteObjectAny Class marshal o)
                         (ReadObjectAny factory unmarshal) o (szObj o)) lp ->
  codec (writeStdVectorObjP marshal lp) (readStdVectorObjP factory unmarshal)
        lp (szVecObj lp).
Proof.
  intros Hv Hs Hlp w Hw. unfold szVecObj in *.
  assert (length lp <= list_sum (List.map szObj lp))%nat as Hcnt.
  { clear. induction lp as [|o lp IH]; [reflexivity|].
    cbn [List.map length]. rewrite list_sum_cons.
    destruct o; cbn [szObj]; lia. }
  pose proof (codec_list _ _ _ _ Hlp) as Hl.
  destruct (Hl (mkW ((((w_p w ++ encI16 rvers.StreamerInfo) ++ encI32 0))
                       ++ encI32 (Z.of_nat (length lp))) None) eq_refl)
    as (bs & E & L & Rl). cbv beta in E. cbn [w_p] in E.
  pose (payload := encI32 (Z.of_nat (length lp)) ++ bs).
  assert (length payload = (4 + list_sum (List.map szObj lp))%nat) as Hpl
    by (unfold payload; now rewrite length_app, length_encI32, L).
  exists (encFrame rvers.StreamerInfo payload). repeat apply conj.
  - unfold writeStdVectorObjP. rewrite Hw, (WriteVersion_ok _ _ Hw).
    rewrite (WriteI32_ok _ (mkW _ None)) by reflexivity. cbn [w_p].
    rewrite int32_small by (unfold is_int32; lia). rewrite E.
    rewrite <- (app_assoc _ (encI32 (Z.of_nat (length lp))) bs).
    fold payload. rewrite SetByteCount_ok by lia. reflexivity.
  - rewrite length_encFrame, Hpl. lia.
  - intros B k r rest Hat. unfold rbytes.bind at 1.
    unfold readStdVectorObjP. rewrite (at_here _ _ Hat). cbv zeta.
    unfold RPos.
    assert (Z.of_nat (4 + length payload) < 2 ^ 31) as Hb by lia.
    destruct (frame_enter "vector<TObject*>" _ payload
                (fun '(vers, pos, bcnt) =>
                   if negb (vers =? rvers.StreamerInfo)
                   then fun r0 =>
                          Ok [] (SetErr (ErrInvalidVersion "vector<TObject*>"
                                           vers rvers.StreamerInfo) r0)
                   else
                     rbytes.bind ReadI32 (fun n =>
                       if n <? 0 then panic (ErrMakeSlice n)
                       else
                         rbytes.bind
                           (readN (Z.to_nat n)
                                  (ReadObjectAny factory unmarshal))
                           (fun o =>
                              rbytes.bind
                                (CheckByteCount pos bcnt (r_c r)
                                                "vector<TObject*>")
                                (fun _ => ret o))))
                r rest Hv Hb Hat) as [-> Hat'].
    assert (negb (rvers.StreamerInfo =? rvers.StreamerInfo) = false) as ->
      by (rewrite Z.eqb_refl; reflexivity).
    unfold payload in Hat'. rewrite <- app_assoc in Hat'.
    rd_step (reads_I32 (Z.of_nat (length lp)) ltac:(unfold is_int32; lia)).
    assert ((Z.of_nat (length lp) <? 0) = false) as -> by lia.
    rewrite Nat2Z.id. rd_step Rl.
    rewrite CheckByteCount_at.
    + unfold ret. rewrite !advance_advance, length_encFrame, length_encI32.
      fold payload. rewrite Hpl, L. reflexivity.
    + exact (at_here _ _ Hat').
    + unfold advance. cbn [r_c]. fold payload.
      rewrite Hpl, L, length_encI32. lia.
Qed.

End Objects.

(** ** The round trip of a Formula *)
Section RoundTrip.
Import rhist Layout.
Context `{V : rvers.Versions} `{Rg : MapRange} `{HRg : !RangeOk Rg}.

Lemma MarshalROOT_unfold (f : Formula) (w : WBuffer) :
  MarshalROOT f w
  = match w_err w with
    | Some e => ((0, Some e), w)
    | None =>
        let '(pos, w) := WriteVersion rvers.Formula w in
        let w := WriteObject (rbase.MarshalROOT (named f)) w in
        let w := WriteStdVectorF64 (clingParams f) w in
        let w := WriteBool (allParamsSet f) w in
        let w := writeMapStringInt (params f) w in
        let w := WriteString (formula f) w in
        let w := WriteI32 (ndim f) w in
        let w := writeStdVectorObjP MarshalROOT (linearParts f) w in
        let w := WriteBool (vectorized f) w in
        SetByteCount pos "TFormula" w
    end.
Proof. destruct f; reflexivity. Qed.

Lemma szFormula_unfold (f : Formula) :
  szFormula f
  = (6 + (szNamed (named f) + (szVecF64 (clingParams f) + (1 +
      (szMap (params f) + (szString (formula f) + (4 +
        (szVecObj (linearParts f) + 1))))))))%nat.
Proof. destruct f; reflexivity. Qed.

Lemma validb_unfold (f : Formula) :
  validb f = true ->
  Forall is_u64 (clingParams f) /\
  Forall (fun kv => is_int32 (snd kv)) (map_to_list (params f)) /\
  is_int32 (ndim f) /\
  Forall (fun o => match o with
                   | None => True
                   | Some g => validb g = true
                   end) (linearParts f) /\
  Z.of_nat (szFormula f) < 2 ^ 31.
Proof.
  destruct f as [nm cp aps ps fo nd lp ve]. cbn [validb].
  rewrite !andb_true_iff, !forallb_forall, is_int32b_true, Z.ltb_lt.
  intros ((((Hcp & Hps) & Hnd) & Hlp) & Hsz).
  cbn [clingParams params ndim linearParts].
  split; [|split; [|split; [|split]]].
  - apply List.Forall_forall. intros x Hx. now apply is_u64b_true, Hcp.
  - apply List.Forall_forall. intros x Hx. now apply is_int32b_true, Hps.
  - exact Hnd.
  - apply List.Forall_forall. intros [g|] Hx; [now apply (Hlp _ Hx) | exact I].
  - exact Hsz.
Qed.

Lemma szObj_le (o : option Formula) (lp : list (option Formula)) :
  In o lp -> (szObj o <= list_sum (List.map szObj lp))%nat.
Proof.
  induction lp as [|x lp IH]; [intros []|].
  cbn [List.map]. rewrite list_sum_cons.
  intros [-> | H]; [lia | specialize (IH H); lia].
Qed.

Lemma at_frame_payload (v : Z) (payload rest : list byte) (r : RBuffer) :
  at_ r (encFrame v payload ++ rest) -> at_ (advance 6 r) (payload ++ rest).
Proof.
  intros Hat. unfold encFrame in Hat. rewrite <- !app_assoc in Hat.
  do 2 apply at_advance in Hat. rewrite length_encI16, length_encI32 in Hat.
  now rewrite advance_advance in Hat.
Qed.

Lemma ReadVersion_frame {B} (cls : string) (v : Z) (payload : list byte)
    (K : Z * nat * Z -> R B) (r : RBuffer) (rest : list byte) :
  is_int16 v -> Z.of_nat (4 + length payload) < 2 ^ 31 ->
  at_ r (encFrame v payload ++ rest) ->
  rbytes.bind (ReadVersion cls) K r
  = K (v, (r_c r + 2)%nat, Z.of_nat (4 + length payload)) (advance 6 r).
Proof.
  intros Hv Hb Hat.
  exact (proj1 (frame_enter cls v payload K r rest Hv Hb Hat)).
Qed.

(** Writing [f] appends the bytes of one frame, as many as [szFormula f],
    and [SetByteCount] returns the length it recorded; decoding these bytes
    with a budget of at least [szFormula f] gives [f] back. *)
Lemma MarshalROOT_reads (factory : gmap string (unit -> Formula))
    (new : unit -> Formula) :
  factory !! "TFormula"%string = Some new ->
  12 <= rvers.Formula <= 13 ->
  is_int16 rvers.Named -> is_int16 rvers.StreamerInfo ->
  forall fuel f blank,
    (szFormula f <= fuel)%nat -> validb f = true ->
    forall w, w_err w = None ->
      exists bs,
        MarshalROOT f w
        = ((Z.of_nat (szFormula f) - 2, None), mkW (w_p w ++ bs) None) /\
        length bs = szFormula f /\
        reads (UnmarshalROOT factory fuel blank) bs f.
Proof.
  intros Hreg HvF HvN HvS.
  assert (is_int16 rvers.Formula) as HvF16 by (unfold is_int16; lia).
  induction fuel as [|fuel IH]; intros f blank Hfuel Hval w Hw.
  { rewrite szFormula_unfold in Hfuel. lia. }
  destruct (validb_unfold f Hval) as (Hcp & Hps & Hnd & Hlp & Hsz).
  pose proof (szFormula_unfold f) as Esz.
  rewrite MarshalROOT_unfold, Hw, (WriteVersion_ok _ _ Hw).
  destruct f as [nm cp aps ps fo nd lp ve].
  cbn [named clingParams allParamsSet params formula ndim linearParts
       vectorized] in *.
  assert (Forall (fun o => codec (WriteObjectAny Class MarshalROOT o)
                             (ReadObjectAny factory
                                (UnmarshalROOT factory fuel)) o (szObj o))
                 lp) as Hel.
  { apply List.Forall_forall. intros o Hin.
    apply (codec_ObjectAny factory new); [exact Hreg|].
    destruct o as [g|]; [|exact I].
    pose proof (szObj_le _ _ Hin) as Hle. cbn [szObj] in Hle.
    unfold szVecObj in Esz.
    rewrite List.Forall_forall in Hlp. specialize (Hlp _ Hin).
    cbv beta iota in Hlp.
    split; [lia|]. intros w' Hw'.
    destruct (IH g (new tt) ltac:(lia) Hlp w' Hw') as (bs & E & L & Rd).
    exists bs. rewrite E. auto. }
  set (p0 := (w_p w ++ encI16 rvers.Formula) ++ encI32 0).
  destruct (codec_Object _ _ _ _ _
              (codec_Named nm (named blank) HvN ltac:(lia))
              (mkW p0 None) eq_refl) as (b1 & E1 & L1 & R1).
  destruct (codec_VecF64 cp (clingParams blank) Hcp ltac:(lia)
              (mkW (p0 ++ b1) None) eq_refl) as (b2 & E2 & L2 & R2).
  destruct (codec_Bool aps (mkW ((p0 ++ b1) ++ b2) None) eq_refl)
    as (b3 & E3 & L3 & R3).
  destruct (codec_Map ps HvS Hps ltac:(lia)
              (mkW (((p0 ++ b1) ++ b2) ++ b3) None) eq_refl)
    as (b4 & E4 & L4 & R4).
  destruct (codec_String fo ltac:(lia)
              (mkW ((((p0 ++ b1) ++ b2) ++ b3) ++ b4) None) eq_refl)
    as (b5 & E5 & L5 & R5).
  destruct (codec_I32 nd Hnd
              (mkW (((((p0 ++ b1) ++ b2) ++ b3) ++ b4) ++ b5) None) eq_refl)
    as (b6 & E6 & L6 & R6).
  destruct (codec_VecObj factory MarshalROOT (UnmarshalROOT factory fuel) lp
              HvS ltac:(lia) Hel
              (mkW ((((((p0 ++ b1) ++ b2) ++ b3) ++ b4) ++ b5) ++ b6) None)
              eq_refl) as (b7 & E7 & L7 & R7).
  destruct (codec_Bool ve
              (mkW (((((((p0 ++ b1) ++ b2) ++ b3) ++ b4) ++ b5) ++ b6) ++ b7)
                   None) eq_refl) as (b8 & E8 & L8 & R8).
  cbv beta in E1. cbn [w_p] in E1, E2, E3, E4, E5, E6, E7, E8.
  pose (payload := b1 ++ b2 ++ b3 ++ b4 ++ b5 ++ b6 ++ b7 ++ b8).
  assert (length payload
          = (szNamed nm + (szVecF64 cp + (1 + (szMap ps + (szString fo
               + (4 + (szVecObj lp + 1)))))))%nat) as Hpl.
  { unfold payload. rewrite !length_app. lia. }
  assert (Z.of_nat (4 + length payload) < 2 ^ 31) as Hb by lia.
  exists (encFrame rvers.Formula payload). split; [|split].
  - rewrite E1, E2, E3, E4, E5, E6, E7, E8.
    replace ((((((((p0 ++ b1) ++ b2) ++ b3) ++ b4) ++ b5) ++ b6) ++ b7) ++ b8)
      with (p0 ++ payload) by (unfold payload; now rewrite <- !app_assoc).
    unfold p0. rewrite SetByteCount_ok by exact Hb.
    f_equal. f_equal. lia.
  - rewrite length_encFrame, Hpl. lia.
  - intros B k r rest Hat. unfold rbytes.bind at 1.
    cbn [UnmarshalROOT]. rewrite (at_here _ _ Hat). cbv zeta.
    unfold RPos, Class.
    rewrite (ReadVersion_frame _ _ _ _ _ _ HvF16 Hb Hat).
    apply at_frame_payload in Hat.
    assert ((rvers.Formula >? rvers.Formula) = false) as -> by lia.
    assert ((rvers.Formula <? 12) = false) as -> by lia.
    assert ((rvers.Formula >? 13) = false) as -> by lia.
    cbn [orb]. unfold payload in Hat. rewrite <- !app_assoc in Hat.
    rd_step R1. rd_step R2. rd_step R3. rd_step R4. rd_step R5. rd_step R6.
    rd_step R7. rd_step R8.
    rewrite CheckByteCount_at.
    + unfold ret. rewrite !advance_advance, length_encFrame, Hpl.
      rewrite L1, L2, L3, L4, L5, L6, L7, L8.
      apply (f_equal (k _)), (f_equal (fun n => advance n r)). lia.
    + exact (at_here _ _ Hat).
    + unfold advance. cbn [r_c]. rewrite Hpl.
      rewrite L1, L2, L3, L4, L5, L6, L7, L8. lia.
Qed.

Lemma reads_run {A} (rd : R A) (bs : list byte) (a : A) (r : RBuffer)
    (rest : list byte) :
  reads rd bs a -> at_ r (bs ++ rest) ->
  rd r = Ok a (advance (length bs) r).
Proof.
  intros H Hat. specialize (H _ ret r rest Hat).
  unfold rbytes.bind, ret in H. destruct (rd r); congruence.
Qed.

(** C1: let [f] be a Formula whose numbers are within their Go types and
    whose record is shorter than [2^31] bytes ([validb]), with
    [rvers.Formula] within [12, 13].  Writing [f] with [MarshalROOT] into a
    buffer without error appends the record [bs] and returns the recorded
    length and no error; [UnmarshalROOT], run on these bytes with the
    factory as [init] leaves it, into any receiver, returns without error
    (the buffer it leaves has none) the Formula [f], equal in all the eight
    fields, with the cursor right after the record.  This holds whatever
    order the [range] loops pick, and for every nesting budget that is at
    least the length of the record. *)
Theorem MarshalROOT_UnmarshalROOT_round_trip
    (factory : gmap string (unit -> Formula)) (f blank : Formula)
    (pre rest : list byte) (fuel : nat)
    (HvF : 12 <= rvers.Formula <= 13)
    (HvN : is_int16 rvers.Named) (HvS : is_int16 rvers.StreamerInfo)
    (Hval : validb f = true)
    (Hfuel : (szFormula f <= fuel)%nat) :
  exists bs,
    MarshalROOT f (mkW pre None)
    = ((Z.of_nat (szFormula f) - 2, None), mkW (pre ++ bs) None) /\
    length bs = szFormula f /\
    UnmarshalROOT (init factory) fuel blank
                  (mkR (pre ++ bs ++ rest) (length pre) None)
    = Ok f (mkR (pre ++ bs ++ rest) (length pre + length bs) None).
Proof.
  destruct (MarshalROOT_reads (init factory) (fun _ => newFormula)
              ltac:(apply lookup_insert_eq) HvF HvN HvS fuel f blank
              Hfuel Hval (mkW pre None) eq_refl) as (bs & E & L & Rd).
  exists bs. split; [exact E | split; [exact L|]].
  apply (reads_run _ _ _ _ rest Rd (at_start pre (bs ++ rest))).
Qed.

End RoundTrip.

Section RoundTripWitness.
Import rhist Layout Samples.

Lemma MarshalROOT_UnmarshalROOT_round_trip_witness :
  exists bs,
    MarshalROOT (V := V0) (Rg := range_bwd) f_pol (mkW [] None)
    = ((Z.of_nat (szFormula f_pol) - 2, None), mkW ([] ++ bs) None) /\
    length bs = szFormula f_pol /\
    UnmarshalROOT (V := V0) (init ∅) 400 newFormula
                  (mkR ([] ++ bs ++ []) (length (@nil byte)) None)
    = Ok f_pol (mkR ([] ++ bs ++ []) (length (@nil byte) + length bs) None).
Proof.
  apply (MarshalROOT_UnmarshalROOT_round_trip (V := V0) (Rg := range_bwd)
           (HRg := range_bwd_ok)
           ∅ f_pol newFormula [] [] 400).
  - simpl. lia.
  - unfold is_int16. simpl. lia.
  - unfold is_int16. simpl. lia.
  - vm_compute. reflexivity.
  - vm_compute. lia.
Defined.

End RoundTripWitness.

Section MapWitness.
Import rhist Layout Samples.
Local Open Scope string_scope.

Lemma readMapStringInt_last_occurrence_witness :
  exists m r',
    readMapStringInt (V := V0)
      (mkR ([] ++ encI16 9 ++ encI32 0
               ++ encI32 (Z.of_nat (length pairs_aba))
               ++ encPairs pairs_aba ++ [])
           (length (@nil byte)) None)
    = Ok m r' /\
    (forall k, m !! k = lastOcc k pairs_aba) /\
    r_c r' = (length (@nil byte)
              + (10 + length (encPairs pairs_aba)))%nat.
Proof.
  apply (readMapStringInt_last_occurrence (V := V0)
           pairs_aba 0 [] []).
  - unfold is_int16. simpl. lia.
  - unfold is_int32. lia.
  - repeat constructor; simpl; unfold is_int32; lia.
  - simpl. lia.
Defined.

End MapWitness.

(** In a hypothesis [H] that says a chain of reads returned, every read
    before the final check returned: the other outcomes contradict [H]. *)
Ltac ok_cases H :=
  repeat match type of H with
         | context [match ?x with
                    | Ok _ _ => _
                    | Panic _ _ => _
                    | NoFuel => _
                    end] =>
             lazymatch x with
             | CheckByteCount _ _ _ _ _ => fail
             | _ => destruct x; try discriminate
             end
         end.

(** ** The check of the byte count *)
Section ByteCount.
Import rhist Layout.
Context `{V : rvers.Versions}.

(** Whatever the buffer, [CheckByteCount] returns; it leaves no error only
    where there was none and the bytes consumed are the bytes recorded. *)
Lemma CheckByteCount_passes (pos : nat) (bcnt : Z) (beg : nat) (cls : string)
    (r r' : RBuffer) (u : unit) :
  CheckByteCount pos bcnt beg cls r = Ok u r' -> r_err r' = None ->
  r' = r /\ Z.of_nat (r_c r) - Z.of_nat pos = bcnt.
Proof.
  unfold CheckByteCount. intros H Hr'.
  destruct (r_err r) eqn:E.
  - injection H as _ <-. congruence.
  - destruct (Z.of_nat (r_c r) - Z.of_nat pos =? bcnt) eqn:Ec.
    + injection H as _ <-. split; [reflexivity | lia].
    + injection H as _ <-. discriminate.
Qed.

Lemma CheckByteCount_sticky (pos : nat) (bcnt : Z) (beg : nat) (cls : string)
    (r : RBuffer) (e : Error) :
  r_err r = Some e -> CheckByteCount pos bcnt beg cls r = Ok tt r.
Proof. intros He. unfold CheckByteCount. now rewrite He. Qed.

(** C7: every decoder of formula.go ends on [CheckByteCount]: that of the
    TFormula record and those of its two containers, the map and the vector
    of objects.  When [UnmarshalROOT] has passed the version checks and
    read its fields without error, and the bytes consumed since the
    position the frame counts from differ from the length the frame
    records, it returns the fields it read together with the
    frame-length-mismatch error naming TFormula, the recorded and the
    consumed count; the error is the one of the buffer it leaves, whose
    cursor has not moved.  [readMapStringInt] and [readStdVectorObjP] do
    the same for their containers, naming the container type.  Conversely,
    whenever one of the three returns without error, the bytes it consumed
    are as many as its frame records.  And the error is final for the
    record: an error the fields leave on the buffer, such as the mismatch
    of a container within, is the one [UnmarshalROOT] returns. *)
Theorem byte_count_mismatch_is_an_error
    (factory : gmap string (unit -> Formula)) (fuel : nat) :
  (forall (f f' : Formula) (r r1 r2 : RBuffer) (vers : Z) (pos : nat)
          (bcnt : Z),
      r_err r = None ->
      ReadVersion "TFormula" r = Ok (vers, pos, bcnt) r1 ->
      vers <= rvers.Formula -> 12 <= vers <= 13 ->
      readFields factory (UnmarshalROOT factory fuel) f r1 = Ok f' r2 ->
      r_err r2 = None ->
      Z.of_nat (r_c r2) - Z.of_nat pos <> bcnt ->
      UnmarshalROOT factory (S fuel) f r
      = Ok f' (SetErr (ErrFrameLengthMismatch "TFormula" bcnt
                         (Z.of_nat (r_c r2) - Z.of_nat pos)) r2)) /\
  (forall (o : gmap string Z) (r r1 r2 : RBuffer) (pos : nat) (bcnt : Z),
      r_err r = None ->
      ReadVersion "map<TString,int,TFormulaParamOrder>" r
      = Ok (rvers.StreamerInfo, pos, bcnt) r1 ->
      readEntries r1 = Ok o r2 ->
      r_err r2 = None ->
      Z.of_nat (r_c r2) - Z.of_nat pos <> bcnt ->
      readMapStringInt r
      = Ok o (SetErr (ErrFrameLengthMismatch
                        "map<TString,int,TFormulaParamOrder>" bcnt
                        (Z.of_nat (r_c r2) - Z.of_nat pos)) r2)) /\
  (forall (unmarshal : Formula -> R Formula) (o : list (option Formula))
          (r r1 r2 : RBuffer) (pos : nat) (bcnt : Z),
      r_err r = None ->
      ReadVersion "vector<TObject*>" r
      = Ok (rvers.StreamerInfo, pos, bcnt) r1 ->
      readObjects factory unmarshal r1 = Ok o r2 ->
      r_err r2 = None ->
      Z.of_nat (r_c r2) - Z.of_nat pos <> bcnt ->
      readStdVectorObjP factory unmarshal r
      = Ok o (SetErr (ErrFrameLengthMismatch "vector<TObject*>" bcnt
                        (Z.of_nat (r_c r2) - Z.of_nat pos)) r2)) /\
  (forall (f f' : Formula) (r r' : RBuffer),
      r_err r = None ->
      UnmarshalROOT factory (S fuel) f r = Ok f' r' ->
      r_err r' = None ->
      exists vers pos bcnt r1,
        ReadVersion "TFormula" r = Ok (vers, pos, bcnt) r1 /\
        Z.of_nat (r_c r') - Z.of_nat pos = bcnt) /\
  (forall (o : gmap string Z) (r r' : RBuffer),
      r_err r = None ->
      readMapStringInt r = Ok o r' ->
      r_err r' = None ->
      exists pos bcnt r1,
        ReadVersion "map<TString,int,TFormulaParamOrder>" r
        = Ok (rvers.StreamerInfo, pos, bcnt) r1 /\
        Z.of_nat (r_c r') - Z.of_nat pos = bcnt) /\
  (forall (unmarshal : Formula -> R Formula) (o : list (option Formula))
          (r r' : RBuffer),
      r_err r = None ->
      readStdVectorObjP factory unmarshal r = Ok o r' ->
      r_err r' = None ->
      exists pos bcnt r1,
        ReadVersion "vector<TObject*>" r
        = Ok (rvers.StreamerInfo, pos, bcnt) r1 /\
        Z.of_nat (r_c r') - Z.of_nat pos = bcnt) /\
  (forall (f f' : Formula) (r r1 r2 : RBuffer) (vers : Z) (pos : nat)
          (bcnt : Z) (e : Error),
      r_err r = None ->
      ReadVersion "TFormula" r = Ok (vers, pos, bcnt) r1 ->
      vers <= rvers.Formula -> 12 <= vers <= 13 ->
      readFields factory (UnmarshalROOT factory fuel) f r1 = Ok f' r2 ->
      r_err r2 = Some e ->
      UnmarshalROOT factory (S fuel) f r = Ok f' r2).
Proof.
  repeat apply conj.
  - intros f f' r r1 r2 vers pos bcnt Hr Hv Hmax Hrange Hf Hr2 Hne.
    cbn [UnmarshalROOT]. rewrite Hr. cbv zeta.
    unfold Class, RPos, rbytes.bind at 1. rewrite Hv.
    assert ((vers >? rvers.Formula) = false) as -> by lia.
    assert ((vers <? 12) = false) as -> by lia.
    assert ((vers >? 13) = false) as -> by lia. cbn [orb].
    unfold readFields in Hf. unfold rbytes.bind in *.
    ok_cases Hf.
    unfold ret in Hf. injection Hf as <- <-.
    rewrite (CheckByteCount_mismatch _ _ _ _ _ Hr2 Hne). reflexivity.
  - intros o r r1 r2 pos bcnt Hr Hv He Hr2 Hne.
    unfold readMapStringInt. rewrite Hr. cbv zeta.
    unfold RPos, rbytes.bind at 1. rewrite Hv, Z.eqb_refl. cbn [negb].
    unfold readEntries in He. unfold rbytes.bind in *.
    ok_cases He.
    rewrite He, (CheckByteCount_mismatch _ _ _ _ _ Hr2 Hne). reflexivity.
  - intros unmarshal o r r1 r2 pos bcnt Hr Hv He Hr2 Hne.
    unfold readStdVectorObjP. rewrite Hr. cbv zeta.
    unfold RPos, rbytes.bind at 1. rewrite Hv, Z.eqb_refl. cbn [negb].
    unfold readObjects in He. unfold rbytes.bind at 1 in He.
    unfold rbytes.bind at 1.
    destruct (ReadI32 r1) as [n rn| |]; try discriminate.
    destruct (n <? 0); [discriminate|].
    unfold rbytes.bind at 1. rewrite He.
    unfold rbytes.bind.
    rewrite (CheckByteCount_mismatch _ _ _ _ _ Hr2 Hne). reflexivity.
  - intros f f' r r' Hr Hu Hr'. cbn [UnmarshalROOT] in Hu.
    rewrite Hr in Hu. cbv zeta in Hu.
    unfold Class, RPos, rbytes.bind at 1 in Hu.
    destruct (ReadVersion "TFormula" r) as [[[vers pos] bcnt] r1| |] eqn:Hv;
      try discriminate.
    exists vers, pos, bcnt, r1. split; [reflexivity|].
    destruct (vers >? rvers.Formula); [discriminate|].
    destruct ((vers <? 12) || (vers >? 13)); [discriminate|].
    unfold rbytes.bind, ret in Hu.
    ok_cases Hu.
    match type of Hu with
    | match CheckByteCount _ _ _ _ ?r2 with _ => _ end = _ =>
        destruct (CheckByteCount pos bcnt (r_c r) "TFormula" r2)
          as [u rchk| |] eqn:Ec; try discriminate
    end.
    injection Hu as _ <-.
    destruct (CheckByteCount_passes _ _ _ _ _ _ _ Ec Hr') as [-> Hn].
    exact Hn.
  - intros o r r' Hr Hu Hr'. unfold readMapStringInt in Hu.
    rewrite Hr in Hu. cbv zeta in Hu.
    unfold RPos, rbytes.bind at 1 in Hu.
    destruct (ReadVersion _ r) as [[[vers pos] bcnt] r1| |] eqn:Hv;
      try discriminate.
    destruct (vers =? rvers.StreamerInfo) eqn:Ev; cbn [negb] in Hu.
    2:{ injection Hu as _ <-. discriminate. }
    apply Z.eqb_eq in Ev. subst vers.
    exists pos, bcnt, r1. split; [reflexivity|].
    unfold rbytes.bind, ret in Hu.
    ok_cases Hu.
    match type of Hu with
    | match CheckByteCount _ _ _ ?c ?r2 with _ => _ end = _ =>
        destruct (CheckByteCount pos bcnt (r_c r) c r2)
          as [u rchk| |] eqn:Ec; try discriminate
    end.
    injection Hu as _ <-.
    destruct (CheckByteCount_passes _ _ _ _ _ _ _ Ec Hr') as [-> Hn].
    exact Hn.
  - intros unmarshal o r r' Hr Hu Hr'. unfold readStdVectorObjP in Hu.
    rewrite Hr in Hu. cbv zeta in Hu.
    unfold RPos, rbytes.bind at 1 in Hu.
    destruct (ReadVersion _ r) as [[[vers pos] bcnt] r1| |] eqn:Hv;
      try discriminate.
    destruct (vers =? rvers.StreamerInfo) eqn:Ev; cbn [negb] in Hu.
    2:{ injection Hu as _ <-. discriminate. }
    apply Z.eqb_eq in Ev. subst vers.
    exists pos, bcnt, r1. split; [reflexivity|].
    unfold rbytes.bind at 1 in Hu.
    destruct (ReadI32 r1) as [n rn| |]; try discriminate.
    destruct (n <? 0); [discriminate|].
    unfold rbytes.bind, ret in Hu.
    ok_cases Hu.
    match type of Hu with
    | match CheckByteCount _ _ _ ?c ?r2 with _ => _ end = _ =>
        destruct (CheckByteCount pos bcnt (r_c r) c r2)
          as [u rchk| |] eqn:Ec; try discriminate
    end.
    injection Hu as _ <-.
    destruct (CheckByteCount_passes _ _ _ _ _ _ _ Ec Hr') as [-> Hn].
    exact Hn.
  - intros f f' r r1 r2 vers pos bcnt e Hr Hv Hmax Hrange Hf He.
    cbn [UnmarshalROOT]. rewrite Hr. cbv zeta.
    unfold Class, RPos, rbytes.bind at 1. rewrite Hv.
    assert ((vers >? rvers.Formula) = false) as -> by lia.
    assert ((vers <? 12) = false) as -> by lia.
    assert ((vers >? 13) = false) as -> by lia. cbn [orb].
    unfold readFields in Hf. unfold rbytes.bind in *.
    ok_cases Hf.
    unfold ret in Hf. injection Hf as <- <-.
    rewrite (CheckByteCount_sticky _ _ _ _ _ _ He). reflexivity.
Qed.

End ByteCount.

Section ByteCountWitness.
Import rhist Layout Samples.
Local Open Scope string_scope.

Lemma byte_count_mismatch_is_an_error_witness :
  UnmarshalROOT (V := V0) (init ∅) 3 newFormula r_bad
  = Ok f_lin (SetErr (ErrFrameLengthMismatch "TFormula" 7
                        (Z.of_nat 111 - Z.of_nat 2))
                     (mkR (r_p r_bad) 111 None)) /\
  readMapStringInt (V := V0) r_bad_map
  = Ok (<["a" := 3]> (<["b" := 2]> (<["a" := 1]> ∅)))
       (SetErr (ErrFrameLengthMismatch "map<TString,int,TFormulaParamOrder>"
                  5 (Z.of_nat 37 - Z.of_nat 2))
               (mkR (r_p r_bad_map) 37 None)) /\
  readStdVectorObjP (V := V0) (init ∅) (UnmarshalROOT (V := V0) (init ∅) 2)
                    r_bad_vec
  = Ok [None; None]
       (SetErr (ErrFrameLengthMismatch "vector<TObject*>"
                  5 (Z.of_nat 18 - Z.of_nat 2))
               (mkR (r_p r_bad_vec) 18 None)).
Proof.
  pose proof (byte_count_mismatch_is_an_error (V := V0) (init ∅) 2)
    as (Hformula & Hmap & Hvec & _).
  repeat apply conj.
  - apply (Hformula newFormula f_lin r_bad (mkR (r_p r_bad) 6 None)
             (mkR (r_p r_bad) 111 None) 13 2%nat 7).
    + reflexivity.
    + vm_compute. reflexivity.
    + simpl. lia.
    + lia.
    + vm_compute. reflexivity.
    + reflexivity.
    + simpl. lia.
  - apply (Hmap (<["a" := 3]> (<["b" := 2]> (<["a" := 1]> ∅)))
             r_bad_map (mkR (r_p r_bad_map) 6 None)
             (mkR (r_p r_bad_map) 37 None) 2%nat 5).
    + reflexivity.
    + vm_compute. reflexivity.
    + vm_compute. reflexivity.
    + reflexivity.
    + simpl. lia.
  - apply (Hvec (UnmarshalROOT (V := V0) (init ∅) 2) [None; None]
             r_bad_vec (mkR (r_p r_bad_vec) 6 None)
             (mkR (r_p r_bad_vec) 18 None) 2%nat 5).
    + reflexivity.
    + vm_compute. reflexivity.
    + vm_compute. reflexivity.
    + reflexivity.
    + simpl. lia.
Defined.

End ByteCountWitness.

(** ** The order of the pairs on the wire *)
Section MapOrder.
Import rhist Layout Samples.
Context `{V : rvers.Versions}.

(** With the iteration order fixed, [writeMapStringInt] is a function of
    the map and the buffer: the bytes of the pairs are those of the order
    the [range] loop picked. *)
Lemma writeMapStringInt_bytes `{Rg : MapRange} `{HRg : !RangeOk Rg}
    (m : gmap string Z) (pre : list byte) :
  is_int16 rvers.StreamerInfo ->
  Z.of_nat (szMap m) < 2 ^ 31 ->
  writeMapStringInt m (mkW pre None)
  = mkW (pre ++ encFrame rvers.StreamerInfo
                  (encI32 (Z.of_nat (size m))
                   ++ encPairs (range (length pre + 2 + 4 + 4)%nat m)))
        None.
Proof.
  intros Hv Hs. unfold szMap in Hs.
  pose (l := range (length pre + 2 + 4 + 4)%nat m).
  assert (l ≡ₚ map_to_list m) as Hp by apply range_perm.
  assert (length l = size m) as Hlen
    by (rewrite Hp; apply length_map_to_list).
  pose proof (szPairs_perm _ _ Hp) as Hsz.
  pose proof (length_le_szPairs l) as Hcnt.
  unfold writeMapStringInt. cbn [w_err].
  rewrite (WriteVersion_ok _ (mkW pre None) eq_refl).
  rewrite (WriteI32_ok _ (mkW _ None)) by reflexivity.
  unfold WPos. cbn [w_p]. rewrite !length_app, length_encI16, !length_encI32.
  fold l. rewrite fold_pairs_ok by reflexivity. cbn [w_p].
  rewrite int32_small by (unfold is_int32; lia).
  rewrite <- (app_assoc _ (encI32 (Z.of_nat (size m))) (encPairs l)).
  rewrite SetByteCount_ok; [reflexivity|].
  rewrite length_app, length_encI32, length_encPairs. lia.
Qed.

End MapOrder.

Section MapOrderSample.
Import rhist Layout Samples.

(** C5: the encoder writes the pairs in the order its [range] loop visits
    the map, and Go leaves that order to the runtime.  On the map
    [{p0: 0, p1: 1}], written into an empty buffer, the two orders
    [range_fwd] and [range_bwd] (each lists every entry once) give different
    bytes: two runs on equal maps need not agree. *)
Theorem writeMapStringInt_order_changes_bytes :
  RangeOk range_fwd /\ RangeOk range_bwd /\
  writeMapStringInt (V := V0) (Rg := range_fwd) p01 (mkW [] None)
  <> writeMapStringInt (V := V0) (Rg := range_bwd) p01 (mkW [] None).
Proof.
  split; [exact range_fwd_ok | split; [exact range_bwd_ok|]].
  vm_compute. discriminate.
Qed.

End MapOrderSample.


(** * Further properties of formula.go *)

(** ** The two containers on their own *)
Section ContainerRoundTrips.
Import rhist Layout.
Context `{V : rvers.Versions} `{Rg : MapRange} `{HRg : !RangeOk Rg}.

(** X1: whatever order the [range] loop of [writeMapStringInt] picks, the
    bytes it appends for a map whose values are within [int32] and whose
    container is shorter than [2^31] bytes are read back by
    [readMapStringInt] into that same map, without error and with the
    cursor right after the container. *)
Theorem writeMapStringInt_readMapStringInt_round_trip
    (m : gmap string Z) (pre rest : list byte)
    (HvS : is_int16 rvers.StreamerInfo)
    (Hvals : forallb (fun kv => is_int32b (snd kv)) (map_to_list m) = true)
    (Hsz : Z.of_nat (szMap m) < 2 ^ 31) :
  exists bs,
    writeMapStringInt m (mkW pre None) = mkW (pre ++ bs) None /\
    length bs = szMap m /\
    readMapStringInt (mkR (pre ++ bs ++ rest) (length pre) None)
    = Ok m (mkR (pre ++ bs ++ rest) (length pre + length bs) None).
Proof.
  assert (Forall (fun kv => is_int32 (snd kv)) (map_to_list m)) as Hvals'.
  { apply List.Forall_forall. intros kv Hin. apply is_int32b_true.
    rewrite forallb_forall in Hvals. now apply Hvals. }
  destruct (codec_Map m HvS Hvals' Hsz (mkW pre None) eq_refl)
    as (bs & E & L & Rd).
  exists bs. split; [exact E | split; [exact L|]].
  apply (reads_run _ _ _ _ rest Rd (at_start pre (bs ++ rest))).
Qed.

(** X2: a vector of objects, each [nil] or a valid Formula, whose container
    is shorter than [2^31] bytes: what [writeStdVectorObjP] appends is read
    back by [readStdVectorObjP] into the same vector, entry by entry, when
    the factory is as [init] leaves it and [rvers.Formula] is within
    [12, 13]. *)
Theorem writeStdVectorObjP_readStdVectorObjP_round_trip
    (factory : gmap string (unit -> Formula))
    (lp : list (option Formula)) (pre rest : list byte) (fuel : nat)
    (HvF : 12 <= rvers.Formula <= 13)
    (HvN : is_int16 rvers.Named) (HvS : is_int16 rvers.StreamerInfo)
    (Hval : forallb (fun o => match o with
                              | None => true
                              | Some g => validb g
                              end) lp = true)
    (Hsz : Z.of_nat (szVecObj lp) < 2 ^ 31)
    (Hfuel : (szVecObj lp <= fuel)%nat) :
  exists bs,
    writeStdVectorObjP MarshalROOT lp (mkW pre None) = mkW (pre ++ bs) None /\
    length bs = szVecObj lp /\
    readStdVectorObjP (init factory) (UnmarshalROOT (init factory) fuel)
                      (mkR (pre ++ bs ++ rest) (length pre) None)
    = Ok lp (mkR (pre ++ bs ++ rest) (length pre + length bs) None).
Proof.
  assert (Forall (fun o => codec (WriteObjectAny Class MarshalROOT o)
                             (ReadObjectAny (init factory)
                                (UnmarshalROOT (init factory) fuel))
                             o (szObj o)) lp) as Hel.
  { apply List.Forall_forall. intros o Hin.
    apply (codec_ObjectAny (init factory) (fun _ => newFormula));
      [apply lookup_insert_eq|].
    destruct o as [g|]; [|exact I].
    pose proof (szObj_le _ _ Hin) as Hle. cbn [szObj] in Hle.
    unfold szVecObj in *.
    rewrite forallb_forall in Hval. specialize (Hval _ Hin).
    cbv beta iota in Hval.
    split; [lia|]. intros w' Hw'.
    destruct (MarshalROOT_reads (init factory) (fun _ => newFormula)
                ltac:(apply lookup_insert_eq) HvF HvN HvS fuel g newFormula
                ltac:(lia) Hval w' Hw') as (bs & E & L & Rd).
    exists bs. rewrite E. auto. }
  destruct (codec_VecObj (init factory) MarshalROOT
              (UnmarshalROOT (init factory) fuel) lp HvS Hsz Hel
              (mkW pre None) eq_refl) as (bs & E & L & Rd).
  exists bs. split; [exact E | split; [exact L|]].
  apply (reads_run _ _ _ _ rest Rd (at_start pre (bs ++ rest))).
Qed.

End ContainerRoundTrips.

Section ContainerRoundTripWitnesses.
Import rhist Layout Samples.

Lemma writeMapStringInt_readMapStringInt_round_trip_witness :
  exists bs,
    writeMapStringInt (V := V0) (Rg := range_bwd) p01 (mkW [] None)
    = mkW ([] ++ bs) None /\
    length bs = szMap p01 /\
    readMapStringInt (V := V0) (mkR ([] ++ bs ++ []) (length (@nil byte)) None)
    = Ok p01 (mkR ([] ++ bs ++ []) (length (@nil byte) + length bs) None).
Proof.
  apply (writeMapStringInt_readMapStringInt_round_trip (V := V0)
           (Rg := range_bwd) (HRg := range_bwd_ok) p01 [] []).
  - unfold is_int16. simpl. lia.
  - vm_compute. reflexivity.
  - vm_compute. reflexivity.
Defined.

Lemma writeStdVectorObjP_readStdVectorObjP_round_trip_witness :
  exists bs,
    writeStdVectorObjP (V := V0) (MarshalROOT (V := V0) (Rg := range_fwd))
                       [Some f_lin; None] (mkW [] None)
    = mkW ([] ++ bs) None /\
    length bs = szVecObj [Some f_lin; None] /\
    readStdVectorObjP (V := V0) (init ∅) (UnmarshalROOT (V := V0) (init ∅) 200)
                      (mkR ([] ++ bs ++ []) (length (@nil byte)) None)
    = Ok [Some f_lin; None]
         (mkR ([] ++ bs ++ []) (length (@nil byte) + length bs) None).
Proof.
  apply (writeStdVectorObjP_readStdVectorObjP_round_trip (V := V0)
           (Rg := range_fwd) (HRg := range_fwd_ok) ∅ [Some f_lin; None]
           [] [] 200).
  - simpl. lia.
  - unfold is_int16. simpl. lia.
  - unfold is_int16. simpl. lia.
  - vm_compute. reflexivity.
  - vm_compute. reflexivity.
  - vm_compute. lia.
Defined.

End ContainerRoundTripWitnesses.

(** ** The count of a container *)
Section ContainerCounts.
Import rhist Layout.
Context `{V : rvers.Versions}.

Lemma rget_err {A} (n : nat) (dec : list byte -> A) (dflt : A)
    (r : RBuffer) (e : Error) :
  r_err r = Some e -> rget n dec dflt r = Ok dflt r.
Proof. intros H. unfold rget. now rewrite H. Qed.

Lemma ReadString_err (r : RBuffer) (e : Error) :
  r_err r = Some e -> ReadString r = Ok EmptyString r.
Proof.
  intros H. unfold ReadString, rbytes.bind, ReadI32.
  rewrite (rget_err _ _ _ _ _ H). cbn. now apply rget_err with (e := e).
Qed.

Lemma readN_length {A} (n : nat) (rd : R A) (r r' : RBuffer) (l : list A) :
  readN n rd r = Ok l r' -> length l = n.
Proof.
  revert r r' l. induction n as [|n IH]; intros r r' l.
  - intros [= <- _]. reflexivity.
  - cbn [readN]. unfold rbytes.bind, ret.
    destruct (rd r) as [a ra| |]; try discriminate.
    destruct (readN n rd ra) as [l0 rb| |] eqn:E; try discriminate.
    intros [= <- _]. cbn [length]. f_equal. exact (IH _ _ _ E).
Qed.

(** X3: a vector container of version [rvers.StreamerInfo] whose count is
    negative makes [readStdVectorObjP] panic on [make([]root.Object, n)],
    right after the count and before any object is read. *)
Theorem readStdVectorObjP_negative_count_panics
    (factory : gmap string (unit -> Formula))
    (unmarshal : Formula -> R Formula)
    (n bcnt : Z) (pre rest : list byte)
    (HvS : is_int16 rvers.StreamerInfo) (Hb : is_int32 bcnt)
    (Hn : is_int32 n) (Hneg : n < 0) :
  readStdVectorObjP factory unmarshal
    (mkR (pre ++ encI16 rvers.StreamerInfo ++ encI32 bcnt ++ encI32 n ++ rest)
         (length pre) None)
  = Panic (ErrMakeSlice n)
      (mkR (pre ++ encI16 rvers.StreamerInfo ++ encI32 bcnt ++ encI32 n
                ++ rest)
           (length pre + 10) None).
Proof.
  pose proof (at_start pre (encI16 rvers.StreamerInfo ++ encI32 bcnt
                            ++ encI32 n ++ rest)) as Hat.
  unfold readStdVectorObjP. cbn [r_err]. cbv zeta. unfold RPos.
  rewrite (ReadVersion_at _ _ _ _ _ _ HvS Hb Hat).
  rewrite Z.eqb_refl. cbn [negb].
  do 2 apply at_advance in Hat. rewrite length_encI16, length_encI32 in Hat.
  rewrite advance_advance in Hat. cbn [Nat.add] in Hat.
  rd_step (reads_I32 n Hn).
  assert ((n <? 0) = true) as -> by lia.
  unfold panic, advance. cbn [r_p r_c]. rewrite length_encI32.
  f_equal. f_equal. lia.
Qed.


(** X8: whenever [readStdVectorObjP] returns from a container of version
    [rvers.StreamerInfo], the count it read is not negative and the vector
    it returns has exactly that many entries, whether or not the objects
    could be decoded. *)
Theorem readStdVectorObjP_length_is_count
    (factory : gmap string (unit -> Formula))
    (unmarshal : Formula -> R Formula)
    (r r1 r2 r' : RBuffer) (pos : nat) (bcnt n : Z)
    (o : list (option Formula))
    (Hr : r_err r = None)
    (Hv : ReadVersion "vector<TObject*>" r
          = Ok (rvers.StreamerInfo, pos, bcnt) r1)
    (Hn : ReadI32 r1 = Ok n r2)
    (Ho : readStdVectorObjP factory unmarshal r = Ok o r') :
  0 <= n /\ length o = Z.to_nat n.
Proof.
  unfold readStdVectorObjP in Ho. rewrite Hr in Ho. cbv zeta in Ho.
  unfold rbytes.bind at 1 in Ho. rewrite Hv, Z.eqb_refl in Ho.
  cbn [negb] in Ho. unfold rbytes.bind at 1 in Ho. rewrite Hn in Ho.
  destruct (n <? 0) eqn:En; [discriminate|].
  split; [lia|]. unfold rbytes.bind in Ho.
  destruct (readN _ _ r2) as [l rb| |] eqn:El; try discriminate.
  destruct (CheckByteCount _ _ _ _ rb); try discriminate.
  unfold ret in Ho. injection Ho as <- _. exact (readN_length _ _ _ _ _ El).
Qed.

End ContainerCounts.

Section ContainerCountWitnesses.
Import rhist Layout Samples.
Local Open Scope string_scope.

Lemma readStdVectorObjP_negative_count_panics_witness :
  readStdVectorObjP (V := V0) ∅ (fun f => ret f)
    (mkR ([] ++ encI16 9 ++ encI32 8 ++ encI32 (-1) ++ []) (length (@nil byte))
         None)
  = Panic (ErrMakeSlice (-1))
      (mkR ([] ++ encI16 9 ++ encI32 8 ++ encI32 (-1) ++ [])
           (length (@nil byte) + 10) None).
Proof.
  apply (readStdVectorObjP_negative_count_panics (V := V0) ∅
           (fun f => ret f) (-1) 8 [] []).
  - unfold is_int16. simpl. lia.
  - unfold is_int32. lia.
  - unfold is_int32. lia.
  - lia.
Defined.


Lemma readStdVectorObjP_length_is_count_witness :
  0 <= 2 /\ length [@None Formula; None] = Z.to_nat 2.
Proof.
  apply (readStdVectorObjP_length_is_count (V := V0) ∅ (fun f => ret f)
           (mkR (encI16 9 ++ encI32 16 ++ encI32 2 ++ encI32 0 ++ encI32 0)
                0 None)
           (mkR (encI16 9 ++ encI32 16 ++ encI32 2 ++ encI32 0 ++ encI32 0)
                6 None)
           (mkR (encI16 9 ++ encI32 16 ++ encI32 2 ++ encI32 0 ++ encI32 0)
                10 None)
           (mkR (encI16 9 ++ encI32 16 ++ encI32 2 ++ encI32 0 ++ encI32 0)
                18 None)
           2%nat 16 2 [None; None]).
  - reflexivity.
  - vm_compute. reflexivity.
  - vm_compute. reflexivity.
  - vm_compute. reflexivity.
Defined.

End ContainerCountWitnesses.

(** ** What MarshalROOT writes, for every Formula *)
Section Appends.
Import rhist Layout.
Context `{V : rvers.Versions} `{Rg : MapRange} `{HRg : !RangeOk Rg}.

Lemma appends_wput (bs : list byte) : appends (wput bs) (length bs).
Proof. intros w Hw. exists bs. split; [now apply wput_ok | reflexivity]. Qed.

Lemma appends_seq (f g : WBuffer -> WBuffer) (n m : nat) :
  appends f n -> appends g m -> appends (fun w => g (f w)) (n + m).
Proof.
  intros Hf Hg w Hw. destruct (Hf w Hw) as (b1 & E1 & L1).
  destruct (Hg (mkW (w_p w ++ b1) None) eq_refl) as (b2 & E2 & L2).
  exists (b1 ++ b2). rewrite E1, E2. cbn [w_p].
  now rewrite <- app_assoc, length_app, L1, L2.
Qed.

Lemma appends_fold {A} (wr : A -> WBuffer -> WBuffer) (sz : A -> nat)
    (l : list A) :
  Forall (fun a => appends (wr a) (sz a)) l ->
  appends (fun w => fold_left (fun w a => wr a w) l w)
          (list_sum (List.map sz l)).
Proof.
  induction 1 as [|a l Ha _ IH]; intros w Hw.
  - exists []. split; [|reflexivity].
    destruct w as [p e]. simpl in *. subst e. now rewrite app_nil_r.
  - destruct (Ha w Hw) as (b1 & E1 & L1).
    destruct (IH (mkW (w_p w ++ b1) None) eq_refl) as (b2 & E2 & L2).
    exists (b1 ++ b2). cbn [fold_left List.map]. rewrite E1.
    cbv beta in E2. rewrite E2. cbn [w_p].
    now rewrite <- app_assoc, length_app, L1, L2, list_sum_cons.
Qed.

(** The length field is overwritten in place, whatever the length. *)
Lemma SetByteCount_patch (p : list byte) (v : Z) (cls : string)
    (payload : list byte) :
  SetByteCount (length p + 2) cls
               (mkW (((p ++ encI16 v) ++ encI32 0) ++ payload) None)
  = ((Z.of_nat (4 + length payload), None),
     mkW (p ++ encI16 v
            ++ encI32 (int32 (Z.of_nat (4 + length payload))) ++ payload)
         None).
Proof.
  unfold SetByteCount, WPos. cbn [w_err w_p].
  rewrite !length_app, length_encI16, length_encI32.
  replace (Z.of_nat (length p + 2 + 4 + length payload)
           - Z.of_nat (length p + 2))
    with (Z.of_nat (4 + length payload)) by lia.
  f_equal. f_equal.
  assert (length (p ++ encI16 v) = (length p + 2)%nat) as Hl
    by (now rewrite length_app, length_encI16).
  rewrite <- (app_assoc (p ++ encI16 v)).
  rewrite <- Hl at 1. rewrite take_app_length.
  replace (length p + 2 + 4)%nat
    with (length ((p ++ encI16 v) ++ encI32 0))
    by (rewrite length_app, Hl, length_encI32; reflexivity).
  rewrite (app_assoc (p ++ encI16 v) (encI32 0) payload), drop_app_length.
  now rewrite <- !app_assoc.
Qed.

Lemma frame_appends (v : Z) (cls : string) (body : WBuffer -> WBuffer)
    (n : nat) (w : WBuffer) :
  appends body n -> w_err w = None ->
  exists bs,
    (let '(pos, w1) := WriteVersion v w in SetByteCount pos cls (body w1))
    = ((Z.of_nat (4 + n), None), mkW (w_p w ++ bs) None) /\
    length bs = (6 + n)%nat.
Proof.
  intros Hb Hw. rewrite (WriteVersion_ok _ _ Hw).
  destruct (Hb (mkW ((w_p w ++ encI16 v) ++ encI32 0) None) eq_refl)
    as (payload & E & L).
  rewrite E. cbn [w_p]. rewrite SetByteCount_patch, L.
  eexists. split; [reflexivity|].
  rewrite !length_app, length_encI16, length_encI32, L. reflexivity.
Qed.

Lemma appends_writeMapStringInt (m : gmap string Z) :
  appends (writeMapStringInt m) (szMap m).
Proof.
  intros w Hw.
  destruct (frame_appends rvers.StreamerInfo
              "map<TString,int,TFormulaParamOrder>"
              (fun w1 =>
                 fold_left
                   (fun w kv => WriteI32 (snd kv) (WriteString (fst kv) w))
                   (range (WPos (WriteI32 (int32 (Z.of_nat (size m))) w1)) m)
                   (WriteI32 (int32 (Z.of_nat (size m))) w1))
              (4 + szPairs (map_to_list m)) w) as (bs & E & L);
    [|exact Hw|].
  - intros w1 Hw1. rewrite (WriteI32_ok _ _ Hw1).
    rewrite fold_pairs_ok by reflexivity. cbn [w_p].
    eexists. rewrite <- app_assoc. split; [reflexivity|].
    rewrite length_app, length_encI32, length_encPairs.
    f_equal. apply szPairs_perm, range_perm.
  - exists bs. split; [|exact L].
    unfold writeMapStringInt. rewrite Hw.
    destruct (WriteVersion rvers.StreamerInfo w) as [pos w1].
    cbv zeta in E |- *. now rewrite E.
Qed.

Lemma appends_Named (nm : rbase.Named) :
  appends (WriteObject (rbase.MarshalROOT nm)) (szNamed nm).
Proof.
  intros w Hw.
  destruct (frame_appends rvers.Named "TNamed"
              (fun w1 => WriteString (rbase.title nm)
                           (WriteString (rbase.name nm) w1))
              (szString (rbase.name nm) + szString (rbase.title nm)) w)
    as (bs & E & L); [|exact Hw|].
  - apply appends_seq; unfold szString; rewrite <- length_encString;
      apply appends_wput.
  - exists bs. split; [|exact L].
    unfold WriteObject, rbase.MarshalROOT. rewrite Hw.
    destruct (WriteVersion rvers.Named w) as [pos w1].
    cbv zeta in E |- *. now rewrite E.
Qed.

Lemma appends_VecF64 (l : list Z) :
  appends (WriteStdVectorF64 l) (szVecF64 l).
Proof.
  intros w Hw. eexists. split; [now apply wput_ok|].
  now rewrite length_app, length_encI32, length_flat_map_encU64.
Qed.

Lemma appends_writeStdVectorObjP
    (marshal : Formula -> WBuffer -> (Z * option Error) * WBuffer)
    (lp : list (option Formula)) :
  Forall (fun o => appends (WriteObjectAny Class marshal o) (szObj o)) lp ->
  appends (writeStdVectorObjP marshal lp) (szVecObj lp).
Proof.
  intros Hlp w Hw.
  destruct (frame_appends rvers.StreamerInfo "vector<TObject*>"
              (fun w1 =>
                 fold_left (fun w o => WriteObjectAny Class marshal o w) lp
                           (WriteI32 (int32 (Z.of_nat (length lp))) w1))
              (4 + list_sum (List.map szObj lp)) w) as (bs & E & L);
    [|exact Hw|].
  - apply (appends_seq (WriteI32 _)
             (fun w => fold_left
                         (fun w o => WriteObjectAny Class marshal o w) lp w)).
    + rewrite <- (length_encI32 (int32 (Z.of_nat (length lp)))).
      apply appends_wput.
    + now apply appends_fold.
  - exists bs. split; [|exact L].
    unfold writeStdVectorObjP. rewrite Hw.
    destruct (WriteVersion rvers.StreamerInfo w) as [pos w1].
    cbv zeta in E |- *. now rewrite E.
Qed.

Lemma MarshalROOT_appends (k : nat) :
  forall f, (szFormula f <= k)%nat ->
  forall w, w_err w = None ->
    exists bs,
      MarshalROOT f w
      = ((Z.of_nat (szFormula f) - 2, None), mkW (w_p w ++ bs) None) /\
      length bs = szFormula f.
Proof.
  induction k as [|k IH]; intros f Hk w Hw.
  { rewrite szFormula_unfold in Hk. lia. }
  pose proof (szFormula_unfold f) as Esz.
  assert (Forall (fun o => appends (WriteObjectAny Class MarshalROOT o)
                                   (szObj o)) (linearParts f)) as Hel.
  { apply List.Forall_forall. intros o Hin w' Hw'.
    pose proof (szObj_le _ _ Hin) as Hle. unfold szVecObj in Esz.
    unfold WriteObjectAny. rewrite Hw'. destruct o as [g|].
    - cbn [szObj] in *. unfold Class, WriteString.
      rewrite (wput_ok _ _ Hw').
      destruct (IH g ltac:(lia) (mkW (w_p w' ++ encString "TFormula") None)
                  eq_refl) as (bs & E & L).
      rewrite E. cbn [snd w_p]. eexists. rewrite <- app_assoc.
      split; [reflexivity|]. rewrite length_app, L. reflexivity.
    - eexists. split; [now apply wput_ok | reflexivity]. }
  destruct (frame_appends rvers.Formula "TFormula"
              (fun w1 =>
                 WriteBool (vectorized f)
                   (writeStdVectorObjP MarshalROOT (linearParts f)
                      (WriteI32 (ndim f)
                         (WriteString (formula f)
                            (writeMapStringInt (params f)
                               (WriteBool (allParamsSet f)
                                  (WriteStdVectorF64 (clingParams f)
                                     (WriteObject
                                        (rbase.MarshalROOT (named f))
                                        w1))))))))
              (szNamed (named f) + (szVecF64 (clingParams f) + (1 +
                 (szMap (params f) + (szString (formula f) + (4 +
                    (szVecObj (linearParts f) + 1))))))) w)
    as (bs & E & L); [|exact Hw|].
  - pose proof (appends_seq _ _ _ _ (appends_Named (named f))
        (appends_seq _ _ _ _ (appends_VecF64 (clingParams f))
        (appends_seq _ _ _ _ (appends_wput (encBool (allParamsSet f)))
        (appends_seq _ _ _ _ (appends_writeMapStringInt (params f))
        (appends_seq _ _ _ _ (appends_wput (encString (formula f)))
        (appends_seq _ _ _ _ (appends_wput (encI32 (ndim f)))
        (appends_seq _ _ _ _
           (appends_writeStdVectorObjP MarshalROOT (linearParts f) Hel)
           (appends_wput (encBool (vectorized f)))))))))) as H.
    rewrite length_encString, length_encI32, !length_encBool in H.
    exact H.
  - exists bs. rewrite MarshalROOT_unfold, Hw.
    destruct (WriteVersion rvers.Formula w) as [pos w1].
    cbv zeta in E |- *. rewrite E. split; [|lia].
    f_equal. f_equal. lia.
Qed.

End Appends.

Section AppendsOrders.
Import rhist Layout.
Context `{V : rvers.Versions}.

(** X10: the order of the [range] loops changes the bytes [MarshalROOT]
    writes, never their number.  For every Formula, valid or not, and any
    two orders, [MarshalROOT] on a buffer without error keeps the bytes
    already written, sets no error, returns the same count and appends
    equally many bytes under both orders. *)
Theorem MarshalROOT_length_ignores_range_order
    (Rg1 Rg2 : MapRange) (HRg1 : RangeOk Rg1) (HRg2 : RangeOk Rg2)
    (f : Formula) (pre : list byte) :
  exists n bs1 bs2,
    MarshalROOT (Rg := Rg1) f (mkW pre None)
    = ((n, None), mkW (pre ++ bs1) None) /\
    MarshalROOT (Rg := Rg2) f (mkW pre None)
    = ((n, None), mkW (pre ++ bs2) None) /\
    length bs1 = length bs2.
Proof.
  destruct (MarshalROOT_appends (Rg := Rg1) (szFormula f) f (Nat.le_refl _)
              (mkW pre None) eq_refl) as (bs1 & E1 & L1).
  destruct (MarshalROOT_appends (Rg := Rg2) (szFormula f) f (Nat.le_refl _)
              (mkW pre None) eq_refl) as (bs2 & E2 & L2).
  exists (Z.of_nat (szFormula f) - 2), bs1, bs2.
  repeat apply conj; [exact E1 | exact E2 | congruence].
Qed.

End AppendsOrders.

Section AppendsWitness.
Import rhist Layout Samples.

Lemma MarshalROOT_length_ignores_range_order_witness :
  exists n bs1 bs2,
    MarshalROOT (V := V0) (Rg := range_fwd) f_wide (mkW [] None)
    = ((n, None), mkW ([] ++ bs1) None) /\
    MarshalROOT (V := V0) (Rg := range_bwd) f_wide (mkW [] None)
    = ((n, None), mkW ([] ++ bs2) None) /\
    length bs1 = length bs2.
Proof.
  exact (MarshalROOT_length_ignores_range_order (V := V0)
           range_fwd range_bwd range_fwd_ok range_bwd_ok f_wide []).
Defined.

End AppendsWitness.

(** ** A successful decode overwrites the whole receiver *)
Section Receiver.
Import rhist Layout.
Context `{V : rvers.Versions}.

(** No read clears the error: a read that leaves none had none. *)
Lemma rget_clean {A} (n : nat) (dec : list byte -> A) (dflt : A)
    (r r' : RBuffer) (a : A) :
  rget n dec dflt r = Ok a r' -> r_err r' = None -> r_err r = None.
Proof.
  destruct (r_err r) as [e|] eqn:E; [|reflexivity].
  rewrite (rget_err _ _ _ _ _ E). intros [= _ <-]. congruence.
Qed.

Lemma ReadString_clean (r r' : RBuffer) (s : string) :
  ReadString r = Ok s r' -> r_err r' = None -> r_err r = None.
Proof.
  destruct (r_err r) as [e|] eqn:E; [|reflexivity].
  rewrite (ReadString_err _ _ E). intros [= _ <-]. congruence.
Qed.

Lemma readMapStringInt_clean (r r' : RBuffer) (m : gmap string Z) :
  readMapStringInt r = Ok m r' -> r_err r' = None -> r_err r = None.
Proof.
  destruct (r_err r) as [e|] eqn:E; [|reflexivity].
  unfold readMapStringInt. rewrite E. intros [= _ <-]. congruence.
Qed.

Lemma readStdVectorObjP_clean (factory : gmap string (unit -> Formula))
    (unmarshal : Formula -> R Formula) (r r' : RBuffer)
    (l : list (option Formula)) :
  readStdVectorObjP factory unmarshal r = Ok l r' ->
  r_err r' = None -> r_err r = None.
Proof.
  destruct (r_err r) as [e|] eqn:E; [|reflexivity].
  unfold readStdVectorObjP. rewrite E. intros [= _ <-]. congruence.
Qed.

Lemma CheckByteCount_clean (pos : nat) (bcnt : Z) (beg : nat)
    (cls : string) (r r' : RBuffer) (u : unit) :
  CheckByteCount pos bcnt beg cls r = Ok u r' ->
  r_err r' = None -> r' = r.
Proof.
  unfold CheckByteCount. destruct (r_err r) as [e|] eqn:E.
  - intros [= _ <-]. reflexivity.
  - cbv zeta. destruct (_ =? bcnt); intros [= _ <-];
      [reflexivity | discriminate].
Qed.

(** The Named base and the float vector are read into the receiver's own
    fields; when the read leaves no error, what it returns does not depend
    on what the fields held. *)
Lemma ReadObject_Named_fresh (n1 n2 nm : rbase.Named) (r r' : RBuffer) :
  ReadObject n1 rbase.UnmarshalROOT r = Ok nm r' -> r_err r' = None ->
  ReadObject n2 rbase.UnmarshalROOT r = Ok nm r' /\ r_err r = None.
Proof.
  unfold ReadObject. destruct (r_err r) as [e|] eqn:E.
  - intros [= _ <-]. congruence.
  - unfold rbase.UnmarshalROOT. rewrite E. auto.
Qed.

Lemma ReadStdVectorF64_fresh (s1 s2 cp : list Z) (r r' : RBuffer) :
  ReadStdVectorF64 s1 r = Ok cp r' -> r_err r' = None ->
  ReadStdVectorF64 s2 r = Ok cp r' /\ r_err r = None.
Proof.
  unfold ReadStdVectorF64. destruct (r_err r) as [e|] eqn:E.
  - intros [= _ <-]. congruence.
  - unfold rbytes.bind. destruct (ReadI32 r) as [n r1| |]; try discriminate.
    destruct (n <? 0).
    + intros [= _ <-]. discriminate.
    + auto.
Qed.

(** X12: when [UnmarshalROOT] returns without error, the Formula it
    returns owes nothing to the receiver: decoding the same bytes into any
    other receiver returns the same Formula and leaves the same buffer. *)
Theorem UnmarshalROOT_overwrites_receiver
    (factory : gmap string (unit -> Formula)) (fuel : nat)
    (f1 f2 g : Formula) (r r' : RBuffer)
    (Hr : r_err r = None)
    (Hu : UnmarshalROOT factory fuel f1 r = Ok g r')
    (Hr' : r_err r' = None) :
  UnmarshalROOT factory fuel f2 r = Ok g r'.
Proof.
  destruct fuel as [|fuel]; [discriminate|].
  cbn [UnmarshalROOT] in *. rewrite Hr in *. cbv zeta in *.
  unfold Class, RPos in *. unfold rbytes.bind at 1 in Hu.
  unfold rbytes.bind at 1.
  destruct (ReadVersion "TFormula" r) as [[[vers pos] bcnt] r1| |];
    try discriminate.
  destruct (vers >? rvers.Formula); [discriminate|].
  destruct ((vers <? 12) || (vers >? 13)); [discriminate|].
  unfold rbytes.bind in Hu.
  destruct (ReadObject (named f1) _ r1) as [nm r2| |] eqn:E1;
    try discriminate.
  destruct (ReadStdVectorF64 (clingParams f1) r2) as [cp r3| |] eqn:E2;
    try discriminate.
  destruct (ReadBool r3) as [aps r4| |] eqn:E3; try discriminate.
  destruct (readMapStringInt r4) as [ps r5| |] eqn:E4; try discriminate.
  destruct (ReadString r5) as [fo r6| |] eqn:E5; try discriminate.
  destruct (ReadI32 r6) as [nd r7| |] eqn:E6; try discriminate.
  destruct (readStdVectorObjP _ _ r7) as [lp r8| |] eqn:E7;
    try discriminate.
  destruct (ReadBool r8) as [ve r9| |] eqn:E8; try discriminate.
  destruct (CheckByteCount _ _ _ _ r9) as [u r10| |] eqn:E9;
    try discriminate.
  unfold ret in Hu. injection Hu as <- <-.
  pose proof (CheckByteCount_clean _ _ _ _ _ _ _ E9 Hr') as ->.
  pose proof (rget_clean _ _ _ _ _ _ E8 Hr') as H8.
  pose proof (readStdVectorObjP_clean _ _ _ _ _ E7 H8) as H7.
  pose proof (rget_clean _ _ _ _ _ _ E6 H7) as H6.
  pose proof (ReadString_clean _ _ _ E5 H6) as H5.
  pose proof (readMapStringInt_clean _ _ _ E4 H5) as H4.
  pose proof (rget_clean _ _ _ _ _ _ E3 H4) as H3.
  destruct (ReadStdVectorF64_fresh _ (clingParams f2) _ _ _ E2 H3)
    as [E2' H2].
  destruct (ReadObject_Named_fresh _ (named f2) _ _ _ E1 H2) as [E1' _].
  unfold rbytes.bind.
  rewrite E1', E2', E3, E4, E5, E6, E7, E8, E9. reflexivity.
Qed.

End Receiver.

Section ReceiverWitness.
Import rhist Layout Samples.

Lemma UnmarshalROOT_overwrites_receiver_witness :
  UnmarshalROOT (V := V0) (init ∅) 3 f_pol (mkR bytes_lin 0 None)
  = Ok f_lin (mkR bytes_lin 111 None).
Proof.
  apply (UnmarshalROOT_overwrites_receiver (V := V0) (init ∅) 3
           newFormula f_pol f_lin (mkR bytes_lin 0 None)
           (mkR bytes_lin 111 None)).
  - reflexivity.
  - vm_compute. reflexivity.
  - reflexivity.
Defined.

End ReceiverWitness.

(** ** The versions UnmarshalROOT takes *)
Section AcceptedVersions.
Import rhist Layout.
Context `{V : rvers.Versions} `{Rg : MapRange} `{HRg : !RangeOk Rg}.

Lemma bind_ret_r {A} (m : R A) (r : RBuffer) :
  rbytes.bind m (fun a => ret a) r = m r.
Proof. unfold rbytes.bind, ret. now destruct (m r). Qed.

(** X13: the decoder reads a record of version 12 as it reads one of
    version 13.  Take the record [MarshalROOT] writes for a valid Formula
    and put in its version field any version from 12 up to
    [rvers.Formula]: [UnmarshalROOT] returns the Formula, without error,
    the cursor past the record. *)
Theorem UnmarshalROOT_reads_versions_from_12
    (factory : gmap string (unit -> Formula)) (f blank : Formula)
    (pre rest : list byte) (fuel : nat)
    (HvF : 12 <= rvers.Formula <= 13)
    (HvN : is_int16 rvers.Named) (HvS : is_int16 rvers.StreamerInfo)
    (Hval : validb f = true)
    (Hfuel : (szFormula f <= fuel)%nat) :
  exists payload,
    MarshalROOT f (mkW pre None)
    = ((Z.of_nat (szFormula f) - 2, None),
       mkW (pre ++ encFrame rvers.Formula payload) None) /\
    forall v, 12 <= v <= rvers.Formula ->
      UnmarshalROOT (init factory) fuel blank
                    (mkR (pre ++ encFrame v payload ++ rest) (length pre) None)
      = Ok f (mkR (pre ++ encFrame v payload ++ rest)
                  (length pre + szFormula f) None).
Proof.
  destruct fuel as [|fuel]; [rewrite szFormula_unfold in Hfuel; lia|].
  destruct (validb_unfold f Hval) as (Hcp & Hps & Hnd & Hlp & Hsz).
  pose proof (szFormula_unfold f) as Esz.
  rewrite MarshalROOT_unfold. cbn [w_err].
  rewrite (WriteVersion_ok _ (mkW pre None) eq_refl).
  destruct f as [nm cp aps ps fo nd lp ve].
  cbn [named clingParams allParamsSet params formula ndim linearParts
       vectorized] in *.
  assert (Forall (fun o => codec (WriteObjectAny Class MarshalROOT o)
                             (ReadObjectAny (init factory)
                                (UnmarshalROOT (init factory) fuel))
                             o (szObj o)) lp) as Hel.
  { apply List.Forall_forall. intros o Hin.
    apply (codec_ObjectAny (init factory) (fun _ => newFormula));
      [apply lookup_insert_eq|].
    destruct o as [g|]; [|exact I].
    pose proof (szObj_le _ _ Hin) as Hle. cbn [szObj] in Hle.
    unfold szVecObj in Esz.
    rewrite List.Forall_forall in Hlp. specialize (Hlp _ Hin).
    cbv beta iota in Hlp.
    split; [lia|]. intros w' Hw'.
    destruct (MarshalROOT_reads (init factory) (fun _ => newFormula)
                ltac:(apply lookup_insert_eq) HvF HvN HvS fuel g newFormula
                ltac:(lia) Hlp w' Hw') as (bs & E & L & Rd).
    exists bs. rewrite E. auto. }
  cbn [w_p].
  set (p0 := (pre ++ encI16 rvers.Formula) ++ encI32 0).
  destruct (codec_Object _ _ _ _ _
              (codec_Named nm (named blank) HvN ltac:(lia))
              (mkW p0 None) eq_refl) as (b1 & E1 & L1 & R1).
  destruct (codec_VecF64 cp (clingParams blank) Hcp ltac:(lia)
              (mkW (p0 ++ b1) None) eq_refl) as (b2 & E2 & L2 & R2).
  destruct (codec_Bool aps (mkW ((p0 ++ b1) ++ b2) None) eq_refl)
    as (b3 & E3 & L3 & R3).
  destruct (codec_Map ps HvS Hps ltac:(lia)
              (mkW (((p0 ++ b1) ++ b2) ++ b3) None) eq_refl)
    as (b4 & E4 & L4 & R4).
  destruct (codec_String fo ltac:(lia)
              (mkW ((((p0 ++ b1) ++ b2) ++ b3) ++ b4) None) eq_refl)
    as (b5 & E5 & L5 & R5).
  destruct (codec_I32 nd Hnd
              (mkW (((((p0 ++ b1) ++ b2) ++ b3) ++ b4) ++ b5) None) eq_refl)
    as (b6 & E6 & L6 & R6).
  destruct (codec_VecObj (init factory) MarshalROOT
              (UnmarshalROOT (init factory) fuel) lp
              HvS ltac:(lia) Hel
              (mkW ((((((p0 ++ b1) ++ b2) ++ b3) ++ b4) ++ b5) ++ b6) None)
              eq_refl) as (b7 & E7 & L7 & R7).
  destruct (codec_Bool ve
              (mkW (((((((p0 ++ b1) ++ b2) ++ b3) ++ b4) ++ b5) ++ b6) ++ b7)
                   None) eq_refl) as (b8 & E8 & L8 & R8).
  cbv beta in E1. cbn [w_p] in E1, E2, E3, E4, E5, E6, E7, E8.
  pose (payload := b1 ++ b2 ++ b3 ++ b4 ++ b5 ++ b6 ++ b7 ++ b8).
  assert (length payload
          = (szNamed nm + (szVecF64 cp + (1 + (szMap ps + (szString fo
               + (4 + (szVecObj lp + 1)))))))%nat) as Hpl.
  { unfold payload. rewrite !length_app. lia. }
  assert (Z.of_nat (4 + length payload) < 2 ^ 31) as Hb by lia.
  exists payload. split.
  - rewrite E1, E2, E3, E4, E5, E6, E7, E8.
    replace ((((((((p0 ++ b1) ++ b2) ++ b3) ++ b4) ++ b5) ++ b6) ++ b7) ++ b8)
      with (p0 ++ payload) by (unfold payload; now rewrite <- !app_assoc).
    unfold p0. rewrite SetByteCount_ok by exact Hb.
    f_equal. f_equal. lia.
  - intros v Hv.
    assert (is_int16 v) as Hv16 by (unfold is_int16; lia).
    pose proof (at_start pre (encFrame v payload ++ rest)) as Hat.
    rewrite <- bind_ret_r.
    set (k := fun a : Formula => ret a).
    set (r := mkR (pre ++ encFrame v payload ++ rest) (length pre) None)
      in *.
    unfold rbytes.bind at 1.
    cbn [UnmarshalROOT]. rewrite (at_here _ _ Hat). cbv zeta.
    unfold RPos, Class.
    rewrite (ReadVersion_frame _ _ _ _ _ _ Hv16 Hb Hat).
    apply at_frame_payload in Hat.
    assert ((v >? rvers.Formula) = false) as -> by lia.
    assert ((v <? 12) = false) as -> by lia.
    assert ((v >? 13) = false) as -> by lia.
    cbn [orb]. unfold payload in Hat. rewrite <- !app_assoc in Hat.
    rd_step R1. rd_step R2. rd_step R3. rd_step R4. rd_step R5. rd_step R6.
    rd_step R7. rd_step R8.
    rewrite CheckByteCount_at.
    + unfold ret, k. rewrite !advance_advance.
      rewrite L1, L2, L3, L4, L5, L6, L7, L8.
      unfold ret, advance, r. cbn [r_p r_c r_err].
      f_equal; try (apply (f_equal (fun c => mkR _ c _)); lia).
    + rewrite !advance_advance. reflexivity.
    + rewrite !advance_advance. unfold advance, r. cbn [r_c].
      rewrite Hpl, L1, L2, L3, L4, L5, L6, L7, L8. lia.
Qed.

End AcceptedVersions.

Section AcceptedVersionsWitnesses.
Import rhist Layout Samples.
Local Open Scope string_scope.

Lemma UnmarshalROOT_reads_versions_from_12_witness :
  exists payload,
    MarshalROOT (V := V0) (Rg := range_bwd) f_pol (mkW [] None)
    = ((Z.of_nat (szFormula f_pol) - 2, None),
       mkW ([] ++ encFrame 13 payload) None) /\
    forall v, 12 <= v <= 13 ->
      UnmarshalROOT (V := V0) (init ∅) 400 newFormula
                    (mkR ([] ++ encFrame v payload ++ []) (length (@nil byte))
                         None)
      = Ok f_pol (mkR ([] ++ encFrame v payload ++ [])
                      (length (@nil byte) + szFormula f_pol) None).
Proof.
  apply (UnmarshalROOT_reads_versions_from_12 (V := V0) (Rg := range_bwd)
           (HRg := range_bwd_ok) ∅ f_pol newFormula [] [] 400).
  - simpl. lia.
  - unfold is_int16. simpl. lia.
  - unfold is_int16. simpl. lia.
  - vm_compute. reflexivity.
  - vm_compute. lia.
Defined.

End AcceptedVersionsWitnesses.

(** ** The printed form *)
Section Printing.
Import rhist.
Local Open Scope string_scope.

Lemma string_app_inv_tail (a b c : string) : a ++ c = b ++ c -> a = b.
Proof.
  assert (forall x y : string,
            String.length (x ++ y) = (String.length x + String.length y)%nat)
    as Hlen.
  { induction x as [|u x IHx]; intros y; [reflexivity|].
    change (S (String.length (x ++ y))
            = S (String.length x + String.length y)).
    now rewrite IHx. }
  revert b. induction a as [|x a IH]; intros [|y b] H.
  - reflexivity.
  - apply (f_equal String.length) in H. rewrite !Hlen in H.
    cbn [String.length] in H. lia.
  - apply (f_equal String.length) in H. rewrite !Hlen in H.
    cbn [String.length] in H. lia.
  - change (String.String x (a ++ c) = String.String y (b ++ c)) in H.
    injection H as -> H. f_equal. now apply IH.
Qed.

(** X15: [String] shows the expression and nothing else of a Formula: two
    Formulas print alike exactly when their expressions are equal,
    whatever their names, parameters and parts. *)
Theorem String_equal_iff_same_expression (f g : Formula) :
  String f = String g <-> formula f = formula g.
Proof.
  unfold String. split.
  - intros H. apply (string_app_inv_tail _ _ "}").
    cbn in H. now injection H.
  - now intros ->.
Qed.

End Printing.

(** ** Wrapped drawers *)
Section Wrapping.
Import hplot.
Context {Length Handler Canvas : Type} (zero : Length).

Lemma Wrap_app (d : @Drawer Canvas)
    (opts opts' : list (@DrawOption Length Handler Canvas)) :
  Wrap zero d (opts ++ opts')
  = fold_left (fun wp opt => opt wp) opts' (Wrap zero d opts).
Proof. unfold Wrap. apply fold_left_app. Qed.

Lemma fold_options_p (opts : list (@DrawOption Length Handler Canvas))
    (wp : @wplot Length Handler Canvas) :
  Forall exported opts ->
  p (fold_left (fun wp opt => opt wp) opts wp) = p wp.
Proof.
  intros H. revert wp. induction H as [|o opts Ho _ IH]; intros wp.
  - reflexivity.
  - cbn [fold_left]. rewrite IH. now destruct Ho.
Qed.

Lemma fold_WithLatexHandler_border (hs : list (option Handler))
    (wp : @wplot Length Handler Canvas) :
  border (fold_left (fun wp opt => opt wp) (List.map WithLatexHandler hs) wp)
  = border wp.
Proof.
  revert wp. induction hs as [|h hs IH]; intros wp; [reflexivity|].
  cbn [List.map fold_left]. now rewrite IH.
Qed.

Lemma fold_WithBorder_latex (bs : list Border)
    (wp : @wplot Length Handler Canvas) :
  latex (fold_left (fun wp opt => opt wp) (List.map WithBorder bs) wp)
  = latex wp.
Proof.
  revert wp. induction bs as [|b bs IH]; intros wp; [reflexivity|].
  cbn [List.map fold_left]. now rewrite IH.
Qed.

(** X16: wrapping changes nothing of what is drawn.  Whatever options of
    the package are given, in whatever number and order, [Draw] on the
    wrapped plot is the [Draw] of the drawer that was wrapped. *)
Theorem Wrap_draws_as_the_wrapped_drawer (d : @Drawer Canvas)
    (opts : list (@DrawOption Length Handler Canvas)) (dc : Canvas)
    (Hopts : Forall exported opts) :
  Draw (Wrap zero d opts) dc = d dc.
Proof.
  unfold Draw, Wrap. now rewrite fold_options_p.
Qed.

(** X17: of several options of one kind the last one counts.  The border
    of the wrapped plot is that of the last [WithBorder], whatever options
    come before it and whatever handlers are set after it; likewise the
    handler is that of the last [WithLatexHandler]. *)
Theorem Wrap_last_option_of_a_kind_wins (d : @Drawer Canvas)
    (opts : list (@DrawOption Length Handler Canvas))
    (b : Border) (h : option Handler)
    (bs : list Border) (hs : list (option Handler)) :
  border (Wrap zero d (opts ++ WithBorder b :: List.map WithLatexHandler hs))
  = b /\
  LatexHandler
    (Wrap zero d (opts ++ WithLatexHandler h :: List.map WithBorder bs))
  = h.
Proof.
  split.
  - rewrite Wrap_app. cbn [fold_left].
    now rewrite fold_WithLatexHandler_border.
  - rewrite Wrap_app. cbn [fold_left]. unfold LatexHandler.
    now rewrite fold_WithBorder_latex.
Qed.

(** X18: what no option sets keeps its zero value.  Without a
    [WithBorder] among the options the wrapped plot has the zero border,
    and without a [WithLatexHandler] its handler is nil. *)
Theorem Wrap_unset_fields_are_zero (d : @Drawer Canvas)
    (bs : list Border) (hs : list (option Handler)) :
  border (Wrap zero d (List.map WithLatexHandler hs))
  = mkBorder zero zero zero zero /\
  LatexHandler (Wrap (Handler := Handler) zero d (List.map WithBorder bs))
  = None.
Proof.
  unfold Wrap, LatexHandler.
  now rewrite fold_WithLatexHandler_border, fold_WithBorder_latex.
Qed.

End Wrapping.

Section WrappingWitness.
Import hplot Samples.
Local Open Scope string_scope.

Lemma Wrap_draws_as_the_wrapped_drawer_witness :
  Draw (Wrap (Handler := string) 0 d_hist
          [WithBorder b_one; WithLatexHandler (Some "pdflatex");
           WithBorder b_two]) ["axes"]
  = d_hist ["axes"].
Proof.
  apply (Wrap_draws_as_the_wrapped_drawer (Handler := string) 0 d_hist
           [WithBorder b_one; WithLatexHandler (Some "pdflatex");
            WithBorder b_two] ["axes"]).
  repeat constructor.
Defined.

End WrappingWitness.
